(** * FoodRecognition: COCO annotations to segmentation masks

    A shallow embedding of [src/utils/segmentation_utils.py] and
    [src/extract_segmentation.py], and the properties of the mask
    synthesis that the specification states about them.

    Conventions of the embedding:
    - a Python call that may raise returns [result A];
    - a [dict] is a [gmap], a [set] a [gset]; [list(set(xs))] is
      [elements (list_to_set xs)], whose order is as unspecified as
      Python's;
    - a 2-D numpy array is an [ndarray]: its shape and its rows; a 3-D array
      of shape (H, W, n) is the list of its n channel planes, so that
      [mask[:, :, i]] is the i-th element of the list;
    - pixel values are integers: the categorical and binary masks hold 0 and
      1 only and the label masks sums below 2^16, which float32 represents
      exactly, so a dtype conversion is written where the source has one
      and wraps where an integer dtype does. *)

From Stdlib Require Import Ascii String QArith Qround.
From stdpp Require Import gmap strings list sorting.

Local Open Scope Z_scope.

(** ** Python exceptions and the error monad *)

Inductive exn : Type :=
  | KeyError
  | IndexError
  | ValueError
  | TypeError
  | OSError.

Inductive result (A : Type) : Type :=
  | Ok (a : A)
  | Raise (e : exn).

Arguments Ok {A} a.
Arguments Raise {A} e.

#[global] Instance result_ret : MRet result := λ A a, Ok a.
#[global] Instance result_bind : MBind result := λ A B f r,
  match r with
  | Ok a => f a
  | Raise e => Raise e
  end.
#[global] Instance result_fmap : FMap result := λ A B f r,
  match r with
  | Ok a => Ok (f a)
  | Raise e => Raise e
  end.

(** [d[k]] on a dict, with the exception Python raises. *)
Definition getitem {K V} `{Countable K} (d : gmap K V) (k : K) : result V :=
  match d !! k with
  | Some v => Ok v
  | None => Raise KeyError
  end.

Definition from_option_exn {A} (e : exn) (o : option A) : result A :=
  match o with
  | Some a => Ok a
  | None => Raise e
  end.

(** A [for] loop that updates its state in place and stops at the first
    exception. *)
Fixpoint for_each {A S} (body : S → A → result S) (l : list A) (s : S)
  : result S :=
  match l with
  | [] => Ok s
  | a :: l' =>
      match body s a with
      | Ok s' => for_each body l' s'
      | Raise e => Raise e
      end
  end.

(** A list comprehension whose element expression may raise. *)
Fixpoint comprehension {A B} (f : A → result B) (l : list A)
  : result (list B) :=
  match l with
  | [] => Ok []
  | a :: l' =>
      match f a with
      | Ok b =>
          match comprehension f l' with
          | Ok bs => Ok (b :: bs)
          | Raise e => Raise e
          end
      | Raise e => Raise e
      end
  end.

(** ** numpy arrays *)

Module Np.

Record ndarray : Type := mk_ndarray {
  nrows : nat;
  ncols : nat;
  data : list (list Z)
}.

(** The array of shape (h, w) whose entry at row r, column c is [f r c]. *)
Definition tabulate (h w : nat) (f : nat → nat → Z) : ndarray :=
  {| nrows := h;
     ncols := w;
     data := (λ r, (λ c, f r c) <$> seq 0 w) <$> seq 0 h |}.

(** [a[r, c]]; 0 outside the array, where the code never reads. *)
Definition item (a : ndarray) (r c : nat) : Z :=
  default 0 (data a !! r ≫= λ row, row !! c).

Definition shape (a : ndarray) : nat * nat := (nrows a, ncols a).

(** [np.zeros((h, w))] *)
Definition zeros (h w : nat) : ndarray := tabulate h w (λ _ _, 0).

(** Broadcasting of one dimension against another. *)
Definition broadcast_dim (n m : nat) : result nat :=
  if decide (n = m) then Ok n
  else if decide (n = 1%nat) then Ok m
  else if decide (m = 1%nat) then Ok n
  else Raise ValueError.

(** The index read in a dimension of size n: a dimension of size 1 is
    repeated. *)
Definition bidx (n i : nat) : nat := if decide (n = 1%nat) then 0%nat else i.

(** An element-wise binary operation with broadcasting. *)
Definition map2 (op : Z → Z → Z) (a b : ndarray) : result ndarray :=
  h ← broadcast_dim (nrows a) (nrows b);
  w ← broadcast_dim (ncols a) (ncols b);
  Ok (tabulate h w (λ r c,
        op (item a (bidx (nrows a) r) (bidx (ncols a) c))
           (item b (bidx (nrows b) r) (bidx (ncols b) c)))).

Definition map1 (op : Z → Z) (a : ndarray) : ndarray :=
  tabulate (nrows a) (ncols a) (λ r c, op (item a r c)).

(** [np.bitwise_or(a, b)] on uint8 arrays. *)
Definition bitwise_or : ndarray → ndarray → result ndarray := map2 Z.lor.

(** [np.logical_not(a).astype(int)] *)
Definition logical_not : ndarray → ndarray :=
  map1 (λ v, if decide (v = 0) then 1 else 0).

(** [np.array(a, dtype=np.float32)] of an integer array: every value of a
    uint8 or uint16 array is a float32. *)
Definition as_float32 (a : ndarray) : ndarray := a.

(** [np.array(a, dtype=np.uint8)] *)
Definition as_uint8 : ndarray → ndarray := map1 (λ v, v `mod` 256).

(** [np.array(a, dtype=np.uint16)] *)
Definition as_uint16 : ndarray → ndarray := map1 (λ v, v `mod` 65536).

(** The value assigned into a slot of shape (h, w): [v] broadcast to that
    shape, or ValueError. *)
Definition broadcast_to (h w : nat) (v : ndarray) : result ndarray :=
  if decide ((nrows v = h ∨ nrows v = 1%nat) ∧ (ncols v = w ∨ ncols v = 1%nat))
  then Ok (tabulate h w (λ r c, item v (bidx (nrows v) r) (bidx (ncols v) c)))
  else Raise ValueError.

(** The position a numpy index denotes in a dimension of size n: negative
    indices count from the end. *)
Definition index (n : nat) (i : Z) : result nat :=
  if decide (0 ≤ i < Z.of_nat n) then Ok (Z.to_nat i)
  else if decide (- Z.of_nat n ≤ i < 0) then Ok (Z.to_nat (Z.of_nat n + i))
  else Raise IndexError.

(** [mask[:, :, i] = v] on an array of shape (h, w, len mask). *)
Definition set_channel (h w : nat) (mask : list ndarray) (i : Z)
    (v : ndarray) : result (list ndarray) :=
  k ← index (length mask) i;
  v' ← broadcast_to h w v;
  Ok (<[k := v']> mask).

(** [mask[:, :, i]] *)
Definition get_channel (mask : list ndarray) (i : Z) : result ndarray :=
  k ← index (length mask) i;
  from_option_exn IndexError (mask !! k).

End Np.

(** ** Python floats that stay exact

    A true division by a power of two and the arithmetic on its results are
    exact in floating point while the numbers stay below 2^53; such values
    are kept as rationals. *)

(** [x % d] on floats: the remainder has the sign of the divisor. *)
Definition py_fmod (x : Q) (d : Z) : Q :=
  (x - inject_Z d * inject_Z (Qfloor (x / inject_Z d)))%Q.

(** The whole number a float is truncated to, towards zero. *)
Definition Qtrunc (x : Q) : Z :=
  if Qle_bool 0 x then Qfloor x else Qceiling x.

(** The conversion of a float to uint8 in [np.array(..., dtype=np.uint8)]:
    numpy leaves it unspecified when the truncated value is not a uint8. *)
Definition uint8_of_float (x : Q) : option Z :=
  let t := Qtrunc x in
  if decide (0 ≤ t < 256) then Some t else None.

(** [np.unique(a)]: the values of the array, sorted, each once. *)
Definition np_unique (a : Np.ndarray) : list Z :=
  merge_sort Z.le (remove_dups (mjoin (Np.data a))).

(** ** The annotation store: the pycocotools [COCO] object

    The store is an external collaborator. Its queries are written here as
    pycocotools answers them from the indexes it builds over the loaded
    annotation file: [anns], [imgs] and [cats] are dicts keyed by id (a later
    entry with the same id replaces an earlier one), [imgToAnns] lists the
    annotations of an image and [catToImgs] the image ids of the annotations
    of a category, both in file order. *)

Module Coco.

Record category : Type := mk_category {
  cat_id : Z;
  cat_name : string
}.

Record image : Type := mk_image {
  img_id : Z;
  file_name : string;
  height : nat;
  width : nat
}.

(** The geometry of an annotation (polygon or RLE) is kept as the set of
    pixels (row, column) it covers. *)
Record annotation : Type := mk_annotation {
  ann_id : Z;
  image_id : Z;
  category_id : Z;
  segmentation : nat → nat → bool
}.

Record COCO : Type := mk_COCO {
  images : list image;
  annotations : list annotation;
  categories : list category
}.

(** [d[k]] for the dict built by [d[key(x)] = x for x in l]. *)
Definition dict_lookup {A} (key : A → Z) (l : list A) (k : Z) : result A :=
  from_option_exn KeyError (last (filter (λ a, key a = k) l)).

(** [d.keys()] for that dict: each key once, in order of first insertion. *)
Definition dict_keys (l : list Z) : list Z :=
  foldl (λ acc k, if decide (k ∈ acc) then acc else acc ++ [k]) [] l.

Definition anns (coco : COCO) : Z → result annotation :=
  dict_lookup ann_id (annotations coco).
Definition imgs (coco : COCO) : Z → result image :=
  dict_lookup img_id (images coco).
Definition cats (coco : COCO) : Z → result category :=
  dict_lookup cat_id (categories coco).

Definition imgToAnns (coco : COCO) (i : Z) : list annotation :=
  filter (λ a, image_id a = i) (annotations coco).
Definition catToImgs (coco : COCO) (c : Z) : list Z :=
  image_id <$> filter (λ a, category_id a = c) (annotations coco).

(** [coco.getCatIds(catNms=catNms)]. A [catNms] that is not a list is
    wrapped into one, so [None] selects the categories named None: none. *)
Definition getCatIds (coco : COCO) (catNms : option (list string))
  : list Z :=
  match catNms with
  | Some [] => cat_id <$> categories coco
  | Some nms => cat_id <$> filter (λ c, cat_name c ∈ nms) (categories coco)
  | None => []
  end.

(** [coco.loadCats(ids)] *)
Definition loadCats (coco : COCO) (ids : list Z) : result (list category) :=
  comprehension (cats coco) ids.

(** [coco.getImgIds(imgIds=imgIds, catIds=catIds)] *)
Definition getImgIds (coco : COCO) (imgIds catIds : list Z) : list Z :=
  match imgIds, catIds with
  | [], [] => dict_keys (img_id <$> images coco)
  | _, [] => elements (list_to_set imgIds : gset Z)
  | _, c :: cs =>
      let ids : gset Z := list_to_set imgIds in
      let ids0 : gset Z :=
        if decide (size ids = 0%nat) then list_to_set (catToImgs coco c)
        else ids ∩ list_to_set (catToImgs coco c) in
      elements (foldl (λ acc c', acc ∩ list_to_set (catToImgs coco c')) ids0 cs)
  end.

(** [coco.loadImgs(id)] for one id: a list of one record. *)
Definition loadImgs (coco : COCO) (id : Z) : result (list image) :=
  img ← imgs coco id; Ok [img].

(** [coco.loadImgs(ids)] for a list of ids. *)
Definition loadImgs_list (coco : COCO) (ids : list Z) : result (list image) :=
  comprehension (imgs coco) ids.

(** [coco.getAnnIds(imgIds=id)] *)
Definition getAnnIds (coco : COCO) (id : Z) : list Z :=
  ann_id <$> imgToAnns coco id.

(** [coco.loadAnns(id)] for one id. *)
Definition loadAnns (coco : COCO) (id : Z) : result (list annotation) :=
  ann ← anns coco id; Ok [ann].

(** [coco.annToMask(ann)]: the uint8 rasterization of the annotation at the
    native size of its image. *)
Definition annToMask (coco : COCO) (ann : annotation) : result Np.ndarray :=
  t ← imgs coco (image_id ann);
  Ok (Np.tabulate (height t) (width t)
        (λ r c, Z.b2z (segmentation ann r c))).

End Coco.

(** [l[0]] *)
Definition head_exn {A} (l : list A) : result A :=
  from_option_exn IndexError (head l).

(** [dict(pairs)]: a later pair replaces an earlier one with the same key. *)
Definition dict_of_pairs {V} (pairs : list (Z * V)) : gmap Z V :=
  foldl (λ d kv, <[kv.1 := kv.2]> d) ∅ pairs.

(** [range(n)] *)
Definition range (n : nat) : list Z := Z.of_nat <$> seq 0 n.

(** ** PIL and Keras image helpers *)

Module Pil.

(** The source index nearest-neighbour sampling reads for output index i,
    when a dimension of n_in pixels is resized to n_out pixels: the pixel
    under the centre of the output pixel. *)
Definition nearest (n_in n_out i : nat) : nat :=
  Z.to_nat (((2 * Z.of_nat i + 1) * Z.of_nat n_in) `div` (2 * Z.of_nat n_out)).

(** [Image.fromarray(a).resize(size, Image.NEAREST)], read back as an
    array. PIL sizes are (width, height): the result has [size.2] rows and
    [size.1] columns. *)
Definition resize (size : nat * nat) (a : Np.ndarray) : result Np.ndarray :=
  let '(xsize, ysize) := size in
  if decide (xsize < 1 ∨ ysize < 1)%nat then Raise ValueError
  else Ok (Np.tabulate ysize xsize (λ y x,
             Np.item a (nearest (Np.nrows a) ysize y)
                       (nearest (Np.ncols a) xsize x))).

End Pil.

(** The image directory: the decoded RGB planes of each image file. *)
Definition filesystem : Type := string → option (list Np.ndarray).

(** [os.path.join(a, b)] *)
Fixpoint ends_with_slash (s : string) : bool :=
  match s with
  | EmptyString => false
  | String c EmptyString => bool_decide (c = "/"%char)
  | String _ s' => ends_with_slash s'
  end.

Definition path_join (a b : string) : string :=
  match b with
  | String "/"%char _ => b
  | _ =>
      if bool_decide (a = EmptyString) || ends_with_slash a then a +:+ b
      else a +:+ "/" +:+ b
  end.

(** Keras [img_to_array(load_img(path, target_size=target_size))]:
    [target_size] is (height, width), which Keras swaps for PIL. *)
Definition load_img (fs : filesystem) (path : string) (target_size : nat * nat)
  : result (list Np.ndarray) :=
  img ← from_option_exn OSError (fs path);
  comprehension (Pil.resize (target_size.2, target_size.1)) img.

(** ** src/utils/segmentation_utils.py *)

Module SegmentationUtils.

Import Coco.

(** [load_imgs(coco, class_names)]: the Category Index Builder. Returns
    (img_ids, img_names, class_names, cat_to_class). *)
Definition load_imgs (coco : COCO) (class_names : option (list string))
  : result (list Z * list string * list string * gmap Z Z) :=
  (* get cat ids *)
  let class_names :=
    match class_names with
    | None => []
    | Some nms => nms
    end in
  let cat_ids := getCatIds coco (Some class_names) in
  (* get cat_names ordered and with the special category 'background' *)
  cats ← loadCats coco cat_ids;
  let class_names := "background"%string :: (cat_name <$> cats) in
  (* build a map from cat_ids to the corresponding index of cat_names *)
  let cat_to_class :=
    dict_of_pairs (zip (0 :: cat_ids) (range (length class_names))) in
  (* get images annotated with the filtered categories *)
  let img_ids := (λ id, getImgIds coco [] [id]) <$> cat_ids in
  (* list of lists flattening and remove duplicates *)
  let img_ids := elements (list_to_set (mjoin img_ids) : gset Z) in
  img_names ←
    comprehension
      (λ img_id, img ← loadImgs coco img_id ≫= head_exn; Ok (file_name img))
      img_ids;
  Ok (img_ids, img_names, class_names, cat_to_class).

(** The body of the loop of [load_mask] over the annotation ids of the
    image; its state is (mask, background). *)
Definition load_mask_body (coco : COCO) (cat_to_class : gmap Z Z)
    (h w : nat) (st : list Np.ndarray * Np.ndarray) (ann : Z)
  : result (list Np.ndarray * Np.ndarray) :=
  let '(mask, background) := st in
  ann ← loadAnns coco ann ≫= head_exn;
  (* check if it is a considered category *)
  if decide (category_id ann ∈ dom cat_to_class) then
    (* get channel to fill *)
    i ← getitem cat_to_class (category_id ann);
    m ← annToMask coco ann;
    mask ← Np.set_channel h w mask i (Np.as_float32 m);
    (* compose incrementally the background channel *)
    m ← annToMask coco ann;
    background ← Np.bitwise_or background m;
    Ok (mask, background)
  else Ok (mask, background).

(** [load_mask(coco, img_id, cat_to_class)] *)
Definition load_mask (coco : COCO) (img_id : Z) (cat_to_class : gmap Z Z)
  : result (list Np.ndarray) :=
  img ← loadImgs coco img_id ≫= head_exn;
  (* load all annotations for the given image *)
  let anns := getAnnIds coco img_id in
  (* number of categories; the background must be included *)
  let n_classes := size cat_to_class in
  let mask := replicate n_classes (Np.zeros (height img) (width img)) in
  (* channel dedicated to the background *)
  let background := Np.zeros (height img) (width img) in
  '(mask, background) ←
    for_each (load_mask_body coco cat_to_class (height img) (width img))
      anns (mask, background);
  (* invert background to set the background as 1 wherever all other mask
     are 0 *)
  let background := Np.logical_not background in
  Np.set_channel (height img) (width img) mask 0 (Np.as_float32 background).

(** The scaling of one native mask to [img_size] in [load_data]. The size
    is handed to PIL as it is. *)
Definition scale_mask (img_size : nat * nat) (n_classes : nat)
    (mask : list Np.ndarray) : result (list Np.ndarray) :=
  let mask_scaled := replicate n_classes (Np.zeros img_size.1 img_size.2) in
  for_each
    (λ mask_scaled j,
       ch ← Np.get_channel mask j;
       resized ← Pil.resize img_size ch;
       Np.set_channel img_size.1 img_size.2 mask_scaled j (Np.as_uint8 resized))
    (range n_classes) mask_scaled.

(** [x[i] = img] for an image of three planes. *)
Definition set_image (img_size : nat * nat) (img : list Np.ndarray)
  : result (list Np.ndarray) :=
  if decide (length img = 3%nat)
  then comprehension (Np.broadcast_to img_size.1 img_size.2) img
  else Raise ValueError.

(** [load_data(coco, img_dir, img_size, class_names, show_progress)].
    The progress bar only prints. *)
Definition load_data (coco : COCO) (fs : filesystem) (img_dir : string)
    (img_size : nat * nat) (class_names : option (list string))
    (show_progress : bool)
  : result (list (list Np.ndarray) * list (list Np.ndarray)) :=
  (* load images info from annotations *)
  '(img_ids, img_names, class_names, cat_to_class) ←
    load_imgs coco class_names;
  x ← comprehension
        (λ filename,
           let path := path_join img_dir filename in
           img ← load_img fs path img_size;
           set_image img_size img)
        img_names;
  y ← comprehension
        (λ img_id,
           mask ← load_mask coco img_id cat_to_class;
           (* scale down mask *)
           mask_scaled ← scale_mask img_size (length class_names) mask;
           Ok (fmap (M:=list) Np.as_float32 mask_scaled))
        img_ids;
  Ok (x, y).

(** [get_class_dist(coco, class_names)] *)
Definition get_class_dist (coco : COCO) (class_names : option (list string))
  : gmap Z nat :=
  (* get cat ids *)
  let class_names :=
    match class_names with
    | None => []
    | Some nms => nms
    end in
  let cat_ids := getCatIds coco (Some class_names) in
  (* get the number of images in the dataset *)
  let img_ids := (λ id, getImgIds coco [] [id]) <$> cat_ids in
  let n_images :=
    length (elements (list_to_set (mjoin img_ids) : gset Z)) in
  (* get distribution of the categories in the dataset *)
  let cat_dist : gmap Z nat :=
    dict_of_pairs ((λ id, (id, length (getImgIds coco [] [id]))) <$> cat_ids) in
  (* add the background counts; update lets cat_dist win *)
  let class_dist : gmap Z nat := {[ 0 := n_images ]} in
  cat_dist ∪ class_dist.

(** [show_mask(img, mask, class_names)]: the overlay drawn over the image
    and the labels of its legend. [mask] has shape (h, w, len mask) and
    holds whole numbers; the image is only drawn. *)
Definition show_mask (h w : nat) (mask : list Np.ndarray)
    (class_names : list string) : result (Np.ndarray * list string) :=
  (* preparing the mask with overlapping *)
  mask_plot ←
    for_each
      (λ mask_plot i,
         let k := i + 1 in
         ch ← Np.get_channel mask i;
         v ← Np.broadcast_to h w (Np.map1 (λ x, x * k) ch);
         mask_plot ← Np.map2 Z.add mask_plot v;
         Ok (Np.map1 (λ x, if decide (k ≤ x) then k else x) mask_plot))
      (range (length class_names)) (Np.zeros h w);
  let values := (λ v, v `mod` 256) <$> np_unique mask_plot in
  (* add none label *)
  let labels := "none"%string :: class_names in
  (* legend for mask colors *)
  patches ←
    comprehension
      (λ i, from_option_exn IndexError (labels !! Z.to_nat i)) values;
  Ok (mask_plot, patches).

End SegmentationUtils.

(** ** src/extract_segmentation.py *)

Module ExtractSegmentations.

Import Coco.

Record t : Type := mk {
  pathDir : string;
  imgDir : string;
  annotationFile : string;
  masksDir : string;
  coco : COCO;
  catIds : list Z;
  mapCatIdsLabels : gmap Z Z
}.

(** [__init__]; [store] is the COCO object read from
    [pathDir + annotationFile]. *)
Definition init (pathDir imgDir annotationFile masksDir : string)
    (store : COCO) : t :=
  (* list of category ids adding 0 as first element *)
  let catIds := getCatIds store (Some []) in
  let catIds := 0 :: catIds in
  let catIds := merge_sort Z.le catIds in
  {| pathDir := pathDir;
     imgDir := imgDir;
     annotationFile := annotationFile;
     masksDir := masksDir;
     coco := store;
     catIds := catIds;
     mapCatIdsLabels := dict_of_pairs (zip catIds (range (length catIds))) |}.

(** [loadMask(imgId)]: the instance stack and the class ids. *)
Definition loadMask (self : t) (imgId : Z)
  : result (list Np.ndarray * list Z) :=
  img ← loadImgs (coco self) imgId ≫= head_exn;
  let anns := getAnnIds (coco self) imgId in
  let instance_count := length anns in
  let mask := replicate instance_count (Np.zeros (height img) (width img)) in
  for_each
    (λ '(mask, class_ids) '(i, ann),
       ann ← loadAnns (coco self) ann ≫= head_exn;
       m ← annToMask (coco self) ann;
       mask ← Np.set_channel (height img) (width img) mask i (Np.as_uint8 m);
       Ok (mask, class_ids ++ [category_id ann]))
    (zip (range instance_count) anns) (mask, []).

(** [uint16 array * catId], as far as [mask += ...] accepts it. Under
    numpy 1 the product of a uint16 array and a Python integer has the
    smallest unsigned type that holds the integer, uint16, uint32 or uint64,
    and wraps in it. The product by a negative integer is a signed array and
    the product by an integer of 2^64 and more an array of objects: the
    in-place addition refuses to cast either to uint16 and raises a
    TypeError. *)
Definition times_category (m : Np.ndarray) (catId : Z) : result Np.ndarray :=
  if decide (0 ≤ catId < 2 ^ 16)
  then Ok (Np.map1 (λ v, (v * catId) `mod` 2 ^ 16) m)
  else if decide (2 ^ 16 ≤ catId < 2 ^ 32)
  then Ok (Np.map1 (λ v, (v * catId) `mod` 2 ^ 32) m)
  else if decide (2 ^ 32 ≤ catId < 2 ^ 64)
  then Ok (Np.map1 (λ v, (v * catId) `mod` 2 ^ 64) m)
  else Raise TypeError.

(** [mask += v] on a uint16 array, for [v] of an unsigned type: the sum
    is cast back to uint16, and the shape of [mask] is kept. *)
Definition iadd_uint16 (mask v : Np.ndarray) : result Np.ndarray :=
  v' ← Np.broadcast_to (Np.nrows mask) (Np.ncols mask) v;
  Np.map2 (λ a b, (a + b) `mod` 65536) mask v'.

(** The label mask of one image in [extractMasks]. *)
Definition label_mask (self : t) (img : image) : result Np.ndarray :=
  let anns := getAnnIds (coco self) (img_id img) in
  let mask := Np.zeros (height img) (width img) in
  for_each
    (λ mask ann,
       ann ← loadAnns (coco self) ann ≫= head_exn;
       let catId := category_id ann in
       m ← annToMask (coco self) ann;
       v ← times_category (Np.as_uint16 m) catId;
       iadd_uint16 mask v)
    anns mask.

(** [extractMasks()]: the masks, and the files written by [cv2.imwrite]. *)
Definition extractMasks (self : t)
  : result (list Np.ndarray * list (string * Np.ndarray)) :=
  let imgIds := getImgIds (coco self) [] [] in
  imgs ← loadImgs_list (coco self) imgIds;
  for_each
    (λ '(masks, files) img,
       mask ← label_mask self img;
       Ok (masks ++ [mask],
           files ++ [(pathDir self +:+ masksDir self +:+ file_name img, mask)]))
    imgs ([], []).

(** The binary mask of one image in [extractBinaryMasks]. *)
Definition binary_mask (self : t) (img : image) : result Np.ndarray :=
  let anns := getAnnIds (coco self) (img_id img) in
  let mask := Np.zeros (height img) (width img) in
  for_each
    (λ mask ann,
       ann ← loadAnns (coco self) ann ≫= head_exn;
       m ← annToMask (coco self) ann;
       Np.bitwise_or mask (Np.as_uint8 m))
    anns mask.

(** [extractBinaryMasks()] *)
Definition extractBinaryMasks (self : t)
  : result (list Np.ndarray * list (string * Np.ndarray)) :=
  let imgIds := getImgIds (coco self) [] [] in
  imgs ← loadImgs_list (coco self) imgIds;
  for_each
    (λ '(masks, files) img,
       mask ← binary_mask self img;
       Ok (masks ++ [mask],
           files ++ [(pathDir self +:+ masksDir self +:+ file_name img, mask)]))
    imgs ([], []).

(** [intToRgb(value)]. The divisions are true divisions: the model follows
    the floats while they are exact, and gives no value where numpy's
    conversion to uint8 is unspecified. *)
Definition intToRgb (value : Z) : option (list Z) :=
  if decide (- 2 ^ 53 < value < 2 ^ 53) then
    let b := value `mod` 256 in
    let g := py_fmod (inject_Z (value - b) / inject_Z 256) 256 in
    let r := (inject_Z (value - b) / inject_Z (256 ^ 2) - g / inject_Z 256)%Q in
    r8 ← uint8_of_float r;
    g8 ← uint8_of_float g;
    Some [r8; g8; b]
  else None.

(** [rgbToInt(pixel)] on a pixel of Python integers. *)
Definition rgbToInt (pixel : list Z) : result Z :=
  r ← from_option_exn IndexError (pixel !! 0%nat);
  g ← from_option_exn IndexError (pixel !! 1%nat);
  b ← from_option_exn IndexError (pixel !! 2%nat);
  Ok (256 ^ 2 * r + 256 * g + b).

(** [getMultiChannelMasks()] *)
Definition getMultiChannelMasks (self : t)
  : result (list (list Np.ndarray * list Z)) :=
  let imgIds := getImgIds (coco self) [] [] in
  imgs ← loadImgs_list (coco self) imgIds;
  comprehension (λ img, loadMask self (img_id img)) imgs.

End ExtractSegmentations.

(** ** Vocabulary of the properties *)

(** The rasterization of an annotation on an image of h rows and w columns. *)
Definition raster (h w : nat) (a : Coco.annotation) : Np.ndarray :=
  Np.tabulate h w (λ r c, Z.b2z (Coco.segmentation a r c)).

(** The plane of shape (h, w) that is 1 at every pixel. *)
Definition ones (h w : nat) : Np.ndarray := Np.tabulate h w (λ _ _, 1).

(** An annotation is in scope of a channel index map when its category id is
    a key of the map. *)
Definition in_scope (m : gmap Z Z) (a : Coco.annotation) : Prop :=
  Coco.category_id a ∈ dom m.

#[global] Instance in_scope_dec m a : Decision (in_scope m a).
Proof. unfold in_scope. apply _. Defined.

(** What one turn of the loop of [load_mask] does with an annotation of the
    image, once the annotation is loaded and rasterized. *)
Definition paint (m : gmap Z Z) (h w : nat)
    (st : list Np.ndarray * Np.ndarray) (a : Coco.annotation)
  : result (list Np.ndarray * Np.ndarray) :=
  if decide (in_scope m a) then
    i ← getitem m (Coco.category_id a);
    mask ← Np.set_channel h w st.1 i (raster h w a);
    background ← Np.bitwise_or st.2 (raster h w a);
    Ok (mask, background)
  else Ok st.

(** A channel index map as the data model has it: background at 0, and the
    keys are mapped one-to-one into the channels [0, n_classes). *)
Definition channel_index_map (m : gmap Z Z) : Prop :=
  m !! 0 = Some 0
  ∧ map_Forall (λ _ v, 0 ≤ v < Z.of_nat (size m)) m
  ∧ NoDup (map_to_list m).*2.

#[global] Instance channel_index_map_dec m : Decision (channel_index_map m).
Proof. unfold channel_index_map. apply _. Defined.

(** The store without the annotation of id k, and with one more annotation
    at the end of the file. *)
Definition without_annotation (coco : Coco.COCO) (k : Z) : Coco.COCO :=
  {| Coco.images := Coco.images coco;
     Coco.annotations := filter (λ a, Coco.ann_id a ≠ k) (Coco.annotations coco);
     Coco.categories := Coco.categories coco |}.

Definition with_annotation (coco : Coco.COCO) (a : Coco.annotation)
  : Coco.COCO :=
  {| Coco.images := Coco.images coco;
     Coco.annotations := Coco.annotations coco ++ [a];
     Coco.categories := Coco.categories coco |}.

(** A plane resized to h rows and w columns by nearest-neighbour sampling,
    stored in a uint8 array. *)
Definition nearest_resize (h w : nat) (ch : Np.ndarray) : Np.ndarray :=
  Np.as_uint8
    (Np.tabulate h w (λ y x,
       Np.item ch (Pil.nearest (Np.nrows ch) h y) (Pil.nearest (Np.ncols ch) w x))).

(** The union of a list of planes at a pixel: their pixel-wise maximum. *)
Definition union_at (chs : list Np.ndarray) (r c : nat) : Z :=
  foldr Z.max 0 ((λ ch, Np.item ch r c) <$> chs).

(** Channel 0 of a mask is, at every pixel, the logical negation of the
    union of the other channels. *)
Definition background_complement (mask : list Np.ndarray) : Prop :=
  ∀ ch0 r c,
    mask !! 0%nat = Some ch0 →
    (r < Np.nrows ch0)%nat → (c < Np.ncols ch0)%nat →
    Np.item ch0 r c = if decide (union_at (tail mask) r c = 0) then 1 else 0.

(** The annotations of a list that cover the pixel (r, c), and the sum of
    their category ids in uint16 arithmetic. *)
Definition covering (l : list Coco.annotation) (r c : nat)
  : list Coco.annotation :=
  filter (λ a, Coco.segmentation a r c = true) l.

Definition sum_list_Z (l : list Z) : Z := foldr Z.add 0 l.

Definition label_value (l : list Coco.annotation) (r c : nat) : Z :=
  sum_list_Z (Coco.category_id <$> covering l r c) `mod` 65536.

(** Whether some annotation of a list covers the pixel (r, c). *)
Definition covered (l : list Coco.annotation) (r c : nat) : bool :=
  existsb (λ a, Coco.segmentation a r c) l.

(** A copy of an annotation under another id. *)
Definition duplicate (a : Coco.annotation) (k : Z) : Coco.annotation :=
  {| Coco.ann_id := k;
     Coco.image_id := Coco.image_id a;
     Coco.category_id := Coco.category_id a;
     Coco.segmentation := Coco.segmentation a |}.

(** ** A small store for the examples

    Image 1 is one row of two pixels with two rice annotations, one on each
    pixel, and a tea annotation; image 2 is two by two with an egg annotation
    on its top-left pixel. *)

Definition pixel (r c : nat) : nat → nat → bool :=
  λ r' c', bool_decide (r' = r ∧ c' = c).

Definition demo_store : Coco.COCO :=
  {| Coco.images :=
       [ Coco.mk_image 1 "a.png" 1 2; Coco.mk_image 2 "b.png" 2 2 ];
     Coco.annotations :=
       [ Coco.mk_annotation 10 1 5 (pixel 0 0);
         Coco.mk_annotation 11 1 5 (pixel 0 1);
         Coco.mk_annotation 12 1 9 (pixel 0 0);
         Coco.mk_annotation 13 2 7 (pixel 0 0) ];
     Coco.categories :=
       [ Coco.mk_category 5 "rice"; Coco.mk_category 7 "egg";
         Coco.mk_category 9 "tea" ] |}.

(** The channel index maps of the selections [rice] and [egg]. *)
Definition rice_map : gmap Z Z := dict_of_pairs [(0, 0); (5, 1)].
Definition egg_map : gmap Z Z := dict_of_pairs [(0, 0); (7, 1)].

(** A map that sends rice to a channel that does not exist. *)
Definition short_map : gmap Z Z := dict_of_pairs [(0, 0); (5, 2)].

(** The small store with its annotations in the reverse order. *)
Definition demo_store_reversed : Coco.COCO :=
  {| Coco.images := Coco.images demo_store;
     Coco.annotations := reverse (Coco.annotations demo_store);
     Coco.categories := Coco.categories demo_store |}.

(** The small store with one more annotation, on an image the store does
    not have. *)
Definition demo_store_dangling : Coco.COCO :=
  with_annotation demo_store (Coco.mk_annotation 14 3 5 (pixel 0 0)).

(** The small store with one more annotation on image 2, of a category id
    that does not fit a uint16. *)
Definition demo_store_wide : Coco.COCO :=
  with_annotation demo_store (Coco.mk_annotation 14 2 70000 (pixel 1 1)).

(** The image files of the small store, all black. *)
Definition demo_files : filesystem :=
  λ path,
    if bool_decide (path = "imgs/a.png"%string)
    then Some [Np.zeros 1 2; Np.zeros 1 2; Np.zeros 1 2]
    else if bool_decide (path = "imgs/b.png"%string)
    then Some [Np.zeros 2 2; Np.zeros 2 2; Np.zeros 2 2]
    else None.

(** A store whose image 2 has no file. *)
Definition demo_files_partial : filesystem :=
  λ path,
    if bool_decide (path = "imgs/a.png"%string)
    then Some [Np.zeros 1 2; Np.zeros 1 2; Np.zeros 1 2]
    else None.

(** A plane resized to h rows and w columns by nearest-neighbour sampling,
    its values kept as they are. *)
Definition nearest_sample (h w : nat) (a : Np.ndarray) : Np.ndarray :=
  Np.tabulate h w (λ y x,
    Np.item a (Pil.nearest (Np.nrows a) h y) (Pil.nearest (Np.ncols a) w x)).

(** The file of an image under a directory holds three planes. *)
Definition rgb_file (fs : filesystem) (img_dir : string) (img : Coco.image)
  : Prop :=
  length <$> fs (path_join img_dir (Coco.file_name img)) = Some 3%nat.

#[global] Instance rgb_file_dec fs img_dir img : Decision (rgb_file fs img_dir img).
Proof. unfold rgb_file. apply _. Defined.

(** The channel an annotation is written to exists: its category is not a
    key of the map, or is mapped to a numpy index of a dimension of
    [size m] channels. *)
Definition valid_channel (m : gmap Z Z) (a : Coco.annotation) : Prop :=
  match m !! Coco.category_id a with
  | Some i => - Z.of_nat (size m) ≤ i < Z.of_nat (size m)
  | None => True
  end.

#[global] Instance valid_channel_dec m a : Decision (valid_channel m a).
Proof. unfold valid_channel. destruct (m !! Coco.category_id a); apply _. Defined.

(** A plane of shape (h, w) whose entries are 0 or 1. *)
Definition binary_plane (h w : nat) (ch : Np.ndarray) : Prop :=
  ∃ f : nat → nat → bool, ch = Np.tabulate h w (λ r c, Z.b2z (f r c)).

(** The category id of an annotation is an integer that numpy multiplies a
    uint16 array by within the unsigned types: it is not negative and fits
    a uint64. *)
Definition unsigned_category (a : Coco.annotation) : Prop :=
  0 ≤ Coco.category_id a < 2 ^ 64.

#[global] Instance unsigned_category_dec a : Decision (unsigned_category a).
Proof. unfold unsigned_category. apply _. Defined.

(** The category id of an annotation fits a uint16. *)
Definition uint16_category (a : Coco.annotation) : Prop :=
  0 ≤ Coco.category_id a < 65536.

#[global] Instance uint16_category_dec a : Decision (uint16_category a).
Proof. unfold uint16_category. apply _. Defined.

(** The file a mask of an image is written to. *)
Definition mask_file (self : ExtractSegmentations.t) (img : Coco.image)
  : string :=
  ExtractSegmentations.pathDir self
    +:+ ExtractSegmentations.masksDir self +:+ Coco.file_name img.

(** The value the overlay of [show_mask] shows at a pixel for a list of
    channels: 0 when no channel holds the pixel, and otherwise one more than
    the position of the last channel that holds it. *)
Definition shown_class (chs : list Np.ndarray) (r c : nat) (v : Z) : Prop :=
  (v = 0 ∧ Forall (λ ch, Np.item ch r c = 0) chs)
  ∨ ∃ (j : nat) ch,
      chs !! j = Some ch
      ∧ Np.item ch r c = 1
      ∧ v = Z.of_nat j + 1
      ∧ Forall (λ ch', Np.item ch' r c = 0) (drop (S j) chs).

(** A closed decidable proposition, settled by evaluating its decision. *)
Ltac decide_by_evaluation :=
  apply (bool_decide_unpack _); vm_compute; exact I.

(** * Properties *)

(** ** The arrays are determined by their entries *)

Section ndarray_facts.

Implicit Types (h w r c : nat) (f g : nat → nat → Z).

Lemma seq_fmap_ext {B} (n : nat) (f g : nat → B) :
  (∀ i, (i < n)%nat → f i = g i) → f <$> seq 0 n = g <$> seq 0 n.
Proof.
  intros Hfg. apply list_eq. intros i.
  rewrite !list_lookup_fmap.
  destruct (decide (i < n)%nat) as [Hi|Hi].
  - rewrite lookup_seq_lt by done. simpl. f_equal. by apply Hfg.
  - rewrite lookup_seq_ge by lia. done.
Qed.

Lemma tabulate_ext h w f g :
  (∀ r c, (r < h)%nat → (c < w)%nat → f r c = g r c) →
  Np.tabulate h w f = Np.tabulate h w g.
Proof.
  intros Hfg. unfold Np.tabulate. f_equal.
  apply seq_fmap_ext. intros r Hr.
  apply seq_fmap_ext. intros c Hc. by apply Hfg.
Qed.

Lemma item_tabulate h w f r c :
  (r < h)%nat → (c < w)%nat → Np.item (Np.tabulate h w f) r c = f r c.
Proof.
  intros Hr Hc. unfold Np.item, Np.tabulate. simpl.
  rewrite list_lookup_fmap, lookup_seq_lt by done. simpl.
  rewrite list_lookup_fmap, lookup_seq_lt by done. done.
Qed.

Lemma bidx_lt n i : (i < n)%nat → Np.bidx n i = i ∨ (n = 1%nat ∧ i = 0%nat).
Proof. intros Hi. unfold Np.bidx. case_decide; [right; lia | by left]. Qed.

Lemma bidx_id n i : (i < n)%nat → Np.bidx n i = i.
Proof. intros Hi. unfold Np.bidx. case_decide; lia. Qed.

Lemma broadcast_dim_same n : Np.broadcast_dim n n = Ok n.
Proof. unfold Np.broadcast_dim. by rewrite decide_True. Qed.

Lemma map2_tabulate op h w f g :
  Np.map2 op (Np.tabulate h w f) (Np.tabulate h w g)
  = Ok (Np.tabulate h w (λ r c, op (f r c) (g r c))).
Proof.
  unfold Np.map2. simpl. rewrite !broadcast_dim_same. simpl.
  f_equal. apply tabulate_ext. intros r c Hr Hc.
  rewrite !bidx_id by done.
  by rewrite !item_tabulate.
Qed.

Lemma map1_tabulate op h w f :
  Np.map1 op (Np.tabulate h w f) = Np.tabulate h w (λ r c, op (f r c)).
Proof.
  unfold Np.map1. simpl. apply tabulate_ext. intros r c Hr Hc.
  by rewrite item_tabulate.
Qed.

Lemma broadcast_to_tabulate h w f :
  Np.broadcast_to h w (Np.tabulate h w f) = Ok (Np.tabulate h w f).
Proof.
  unfold Np.broadcast_to. simpl. rewrite decide_True by auto.
  f_equal. apply tabulate_ext. intros r c Hr Hc.
  rewrite !bidx_id by done. by rewrite item_tabulate.
Qed.

End ndarray_facts.

(** ** Loops and comprehensions *)

Section control_facts.

Context {A B S : Type}.

Lemma bind_Ok (a : A) (f : A → result B) : Ok a ≫= f = f a.
Proof. done. Qed.

Lemma bind_Raise (e : exn) (f : A → result B) : Raise e ≫= f = Raise e.
Proof. done. Qed.

Lemma for_each_app (body : S → A → result S) l1 l2 s :
  for_each body (l1 ++ l2) s = for_each body l1 s ≫= for_each body l2.
Proof.
  revert s. induction l1 as [|a l1 IH]; intros s; simpl; [done|].
  destruct (body s a); simpl; [apply IH | done].
Qed.

Lemma for_each_ext (body1 body2 : S → A → result S) l s :
  (∀ a s', a ∈ l → body1 s' a = body2 s' a) →
  for_each body1 l s = for_each body2 l s.
Proof.
  revert s. induction l as [|a l IH]; intros s Hb; simpl; [done|].
  rewrite (Hb a s) by left.
  destruct (body2 s a); [|done].
  apply IH. intros a' s' Ha'. apply Hb. by right.
Qed.

Lemma for_each_fmap (f : B → A) (body : S → A → result S) l s :
  for_each body (f <$> l) s = for_each (λ s' b, body s' (f b)) l s.
Proof.
  revert s. induction l as [|b l IH]; intros s; simpl; [done|].
  destruct (body s (f b)); [apply IH | done].
Qed.

(** Elements on which the body does nothing can be left out. *)
Lemma for_each_filter (P : A → Prop) `{!∀ a, Decision (P a)}
    (body : S → A → result S) l s :
  (∀ a s', a ∈ l → ¬ P a → body s' a = Ok s') →
  for_each body (filter P l) s = for_each body l s.
Proof.
  revert s. induction l as [|a l IH]; intros s Hb; [done|].
  rewrite filter_cons. destruct (decide (P a)) as [Ha|Ha]; simpl.
  - destruct (body s a); [|done].
    apply IH. intros a' s' Ha'. apply Hb. by right.
  - rewrite (Hb a s) by (by left || done).
    apply IH. intros a' s' Ha'. apply Hb. by right.
Qed.

Lemma comprehension_Ok (f : A → result B) l :
  (∀ a, a ∈ l → ∃ b, f a = Ok b) →
  ∃ bs, comprehension f l = Ok bs ∧ Forall2 (λ a b, f a = Ok b) l bs.
Proof.
  induction l as [|a l IH]; intros Hf; simpl.
  - exists []. by split.
  - destruct (Hf a) as [b Hb]; [by left|].
    destruct IH as (bs & Hbs & Hall).
    { intros a' Ha'. apply Hf. by right. }
    exists (b :: bs). rewrite Hb, Hbs. split; [done|]. by constructor.
Qed.

Lemma comprehension_ext (f g : A → result B) l :
  (∀ a, a ∈ l → f a = g a) → comprehension f l = comprehension g l.
Proof.
  induction l as [|a l IH]; intros Hfg; simpl; [done|].
  rewrite (Hfg a) by left. rewrite IH; [done|].
  intros a' Ha'. apply Hfg. by right.
Qed.

Lemma comprehension_length (f : A → result B) l bs :
  comprehension f l = Ok bs → length bs = length l.
Proof.
  revert bs. induction l as [|a l IH]; intros bs; simpl.
  - by intros [= <-].
  - destruct (f a); [|done].
    destruct (comprehension f l) as [bs'|]; [|done].
    intros [= <-]. simpl. f_equal. by apply IH.
Qed.

End control_facts.

(** ** The store *)

Section store_facts.

Import Coco.

Lemma filter_key_absent {A} (key : A → Z) (l : list A) (k : Z) :
  k ∉ key <$> l → filter (λ x, key x = k) l = [].
Proof.
  induction l as [|x l IH]; intros Hk; [done|].
  rewrite fmap_cons in Hk. apply not_elem_of_cons in Hk as [Hx Hk].
  rewrite filter_cons, decide_False by done. by apply IH.
Qed.

Lemma filter_key_unique {A} (key : A → Z) (l : list A) (a : A) :
  NoDup (key <$> l) → a ∈ l → filter (λ x, key x = key a) l = [a].
Proof.
  induction l as [|x l IH]; intros Hnd Ha.
  - by apply elem_of_nil in Ha.
  - rewrite fmap_cons in Hnd. apply NoDup_cons in Hnd as [Hx Hnd].
    rewrite filter_cons.
    apply elem_of_cons in Ha as [->|Ha].
    + rewrite decide_True by done. f_equal. by apply filter_key_absent.
    + rewrite decide_False; [by apply IH|].
      intros Heq. apply Hx. rewrite Heq. by apply list_elem_of_fmap_2.
Qed.

Lemma dict_lookup_unique {A} (key : A → Z) (l : list A) (a : A) :
  NoDup (key <$> l) → a ∈ l → dict_lookup key l (key a) = Ok a.
Proof.
  intros Hnd Ha. unfold dict_lookup. by rewrite filter_key_unique.
Qed.

Lemma dict_lookup_Ok {A} (key : A → Z) (l : list A) (k : Z) (a : A) :
  dict_lookup key l k = Ok a → a ∈ l ∧ key a = k.
Proof.
  unfold dict_lookup. intros Hl.
  destruct (last (filter (λ x, key x = k) l)) as [a'|] eqn:Hlast; [|done].
  injection Hl as ->.
  apply last_Some_elem_of, list_elem_of_filter in Hlast. tauto.
Qed.

Lemma dict_lookup_elem {A} (key : A → Z) (l : list A) (k : Z) :
  k ∈ key <$> l → ∃ a, dict_lookup key l k = Ok a.
Proof.
  intros (a & -> & Ha)%list_elem_of_fmap. unfold dict_lookup.
  destruct (last (filter (λ x, key x = key a) l)) as [a'|] eqn:Hlast;
    [by eexists|].
  apply last_None in Hlast.
  exfalso. eapply filter_nil_not_elem_of; [exact Hlast | | exact Ha]. done.
Qed.

Lemma elem_of_dict_keys (l : list Z) (k : Z) : k ∈ dict_keys l ↔ k ∈ l.
Proof.
  unfold dict_keys.
  assert (∀ acc, k ∈ foldl (λ acc k, if decide (k ∈ acc) then acc else acc ++ [k]) acc l
                 ↔ k ∈ acc ∨ k ∈ l) as Hgen.
  { induction l as [|x l IH]; intros acc; simpl.
    - rewrite elem_of_nil. tauto.
    - rewrite IH. destruct (decide (x ∈ acc)) as [Hx|Hx].
      + rewrite elem_of_cons. split; [tauto|].
        intros [?|[->|?]]; tauto.
      + rewrite elem_of_app, !elem_of_cons, elem_of_nil. tauto. }
  rewrite Hgen, elem_of_nil. tauto.
Qed.

Context (coco : COCO).
Hypothesis ann_ids_unique : NoDup (ann_id <$> annotations coco).

Lemma loadAnns_unique a :
  a ∈ annotations coco → loadAnns coco (ann_id a) ≫= head_exn = Ok a.
Proof.
  intros Ha. unfold loadAnns, anns.
  by rewrite dict_lookup_unique.
Qed.

Lemma elem_of_imgToAnns a i :
  a ∈ imgToAnns coco i ↔ image_id a = i ∧ a ∈ annotations coco.
Proof. unfold imgToAnns. by rewrite list_elem_of_filter. Qed.

End store_facts.

(** ** [load_mask] as a fold over the annotations of the image *)

Section load_mask_facts.

Import Coco SegmentationUtils.

Context (coco : COCO) (img_id : Z) (img : image) (m : gmap Z Z).
Hypothesis ann_ids_unique : NoDup (ann_id <$> annotations coco).
Hypothesis img_known : imgs coco img_id = Ok img.

Lemma annToMask_raster a :
  image_id a = img_id →
  annToMask coco a = Ok (raster (height img) (width img) a).
Proof. intros Ha. unfold annToMask. by rewrite Ha, img_known. Qed.

Lemma load_mask_body_paint st a :
  a ∈ imgToAnns coco img_id →
  load_mask_body coco m (height img) (width img) st (ann_id a)
  = paint m (height img) (width img) st a.
Proof.
  intros [Himg Ha]%elem_of_imgToAnns.
  unfold load_mask_body, paint, in_scope. destruct st as [mask background].
  rewrite loadAnns_unique by done. simpl.
  destruct (decide (category_id a ∈ dom m)); [|done].
  destruct (getitem m (category_id a)) as [i|]; simpl; [|done].
  rewrite annToMask_raster by done. simpl.
  unfold Np.as_float32.
  destruct (Np.set_channel _ _ mask i _); simpl; [|done].
  done.
Qed.

Lemma load_mask_fold :
  load_mask coco img_id m
  = st ← for_each (paint m (height img) (width img)) (imgToAnns coco img_id)
           (replicate (size m) (Np.zeros (height img) (width img)),
            Np.zeros (height img) (width img));
    Np.set_channel (height img) (width img) st.1 0 (Np.logical_not st.2).
Proof.
  unfold load_mask, loadImgs. rewrite img_known. simpl.
  unfold getAnnIds. rewrite for_each_fmap.
  rewrite (for_each_ext _ (paint m (height img) (width img))).
  - destruct (for_each _ _ _) as [[mask background]|]; done.
  - intros a st Ha. by apply load_mask_body_paint.
Qed.

(** Only the annotations in scope count. *)
Lemma load_mask_in_scope :
  load_mask coco img_id m
  = st ← for_each (paint m (height img) (width img))
           (filter (in_scope m) (imgToAnns coco img_id))
           (replicate (size m) (Np.zeros (height img) (width img)),
            Np.zeros (height img) (width img));
    Np.set_channel (height img) (width img) st.1 0 (Np.logical_not st.2).
Proof.
  rewrite load_mask_fold. rewrite for_each_filter; [done|].
  intros a st _ Ha. unfold paint. by rewrite decide_False.
Qed.

End load_mask_facts.

(** ** The categorical mask *)

Section categorical_mask.

Import Coco SegmentationUtils.

Lemma filter_ext_elem {A} (P Q : A → Prop)
    `{!∀ x, Decision (P x), !∀ x, Decision (Q x)} (l : list A) :
  (∀ x, x ∈ l → P x ↔ Q x) → filter P l = filter Q l.
Proof.
  induction l as [|x l IH]; intros HPQ; [done|].
  rewrite !filter_cons.
  rewrite IH by (intros y Hy; apply HPQ; by right).
  apply decide_ext, HPQ. by left.
Qed.

Lemma logical_not_zeros h w : Np.logical_not (Np.zeros h w) = ones h w.
Proof. unfold Np.logical_not, Np.zeros. by rewrite map1_tabulate. Qed.

Lemma index_0 n : (0 < n)%nat → Np.index n 0 = Ok 0%nat.
Proof. intros Hn. unfold Np.index. rewrite decide_True by lia. done. Qed.

Lemma filter_none {A} (P : A → Prop) `{!∀ x, Decision (P x)} (l : list A) :
  Forall (λ x, ¬ P x) l → filter P l = [].
Proof.
  induction 1 as [|x l Hx _ IH]; [done|].
  by rewrite filter_cons, decide_False.
Qed.

Lemma set_background h w (mask : list Np.ndarray) f :
  (0 < length mask)%nat →
  Np.set_channel h w mask 0 (Np.logical_not (Np.tabulate h w f))
  = Ok (<[0%nat := Np.tabulate h w (λ r c, if decide (f r c = 0) then 1 else 0)]> mask).
Proof.
  intros Hlen. unfold Np.set_channel. rewrite index_0 by done. simpl.
  unfold Np.logical_not. rewrite map1_tabulate, broadcast_to_tabulate. done.
Qed.

(** C3: an image with no annotation in scope of the channel index map gets
    the all-background mask: channel 0 is 1 at every pixel and every other
    channel is 0 at every pixel. *)
Theorem load_mask_no_annotation_in_scope coco img_id img (m : gmap Z Z) :
  NoDup (ann_id <$> annotations coco) →
  imgs coco img_id = Ok img →
  (0 < size m)%nat →
  Forall (λ a, ¬ in_scope m a) (imgToAnns coco img_id) →
  load_mask coco img_id m
  = Ok (ones (height img) (width img)
        :: replicate (size m - 1) (Np.zeros (height img) (width img))).
Proof.
  intros Hnd Himg Hm Hout.
  rewrite (load_mask_in_scope coco img_id img m Hnd Himg).
  rewrite filter_none by done. simpl.
  unfold Np.zeros at 2. rewrite set_background by (by rewrite length_replicate).
  destruct (size m) as [|n]; [lia|].
  simpl. by rewrite Nat.sub_0_r.
Qed.

Lemma load_mask_no_annotation_in_scope_witness :
  load_mask demo_store 1 egg_map = Ok [ones 1 2; Np.zeros 1 2].
Proof.
  apply (load_mask_no_annotation_in_scope demo_store 1
           (mk_image 1 "a.png" 1 2) egg_map).
  - decide_by_evaluation.
  - reflexivity.
  - vm_compute. lia.
  - decide_by_evaluation.
Defined.

Lemma NoDup_fmap_inj {A B} (f : A → B) (l : list A) x y :
  NoDup (f <$> l) → x ∈ l → y ∈ l → f x = f y → x = y.
Proof.
  induction l as [|z l IH]; intros Hnd Hx Hy Heq.
  - by apply elem_of_nil in Hx.
  - rewrite fmap_cons in Hnd. apply NoDup_cons in Hnd as [Hz Hnd].
    apply elem_of_cons in Hx as [->|Hx]; apply elem_of_cons in Hy as [->|Hy].
    + done.
    + exfalso. apply Hz. rewrite Heq. by apply list_elem_of_fmap_2.
    + exfalso. apply Hz. rewrite <- Heq. by apply list_elem_of_fmap_2.
    + by apply IH.
Qed.

Lemma ann_id_inj coco a b :
  NoDup (ann_id <$> annotations coco) →
  a ∈ annotations coco → b ∈ annotations coco → ann_id b = ann_id a → b = a.
Proof. intros Hnd Ha Hb Heq. by apply (NoDup_fmap_inj ann_id (annotations coco)). Qed.

Lemma channel_index_map_inj (m : gmap Z Z) k1 k2 v :
  channel_index_map m → m !! k1 = Some v → m !! k2 = Some v → k1 = k2.
Proof.
  intros (_ & _ & Hnd) H1 H2.
  apply elem_of_map_to_list in H1, H2.
  by pose proof (NoDup_fmap_inj snd _ _ _ Hnd H1 H2 eq_refl) as [= ->].
Qed.

Lemma without_annotation_unique coco k :
  NoDup (ann_id <$> annotations coco) →
  NoDup (ann_id <$> annotations (without_annotation coco k)).
Proof.
  intros Hnd. simpl. eapply sublist_NoDup; [exact Hnd|].
  apply fmap_sublist, sublist_filter; apply _.
Qed.

Lemma without_annotation_in_scope coco img_id (m : gmap Z Z) a :
  NoDup (ann_id <$> annotations coco) →
  a ∈ annotations coco →
  ¬ in_scope m a →
  filter (in_scope m) (imgToAnns (without_annotation coco (ann_id a)) img_id)
  = filter (in_scope m) (imgToAnns coco img_id).
Proof.
  intros Hnd Ha Hout. unfold imgToAnns. simpl.
  rewrite !list_filter_filter.
  apply filter_ext_elem. intros b Hb. split; [tauto|].
  intros [Hin Himg]. repeat split; [done..|].
  intros Heq. apply Hout.
  by rewrite <- (ann_id_inj coco a b Hnd Ha Hb Heq).
Qed.

(** C4: an annotation whose category id is not a key of the channel index
    map has no effect on the categorical mask: [load_mask] returns for the
    image what it returns once that annotation is removed from the store,
    on every channel, the background included. *)
Theorem load_mask_ignores_out_of_scope coco img_id (m : gmap Z Z) a :
  NoDup (ann_id <$> annotations coco) →
  a ∈ annotations coco →
  ¬ in_scope m a →
  load_mask coco img_id m
  = load_mask (without_annotation coco (ann_id a)) img_id m.
Proof.
  intros Hnd Ha Hout.
  destruct (imgs coco img_id) as [img|e] eqn:Himg.
  - rewrite (load_mask_in_scope coco img_id img m Hnd Himg).
    rewrite (load_mask_in_scope (without_annotation coco (ann_id a)) img_id img m
               (without_annotation_unique coco _ Hnd) Himg).
    by rewrite without_annotation_in_scope.
  - unfold load_mask, loadImgs.
    change (imgs (without_annotation coco (ann_id a)) img_id)
      with (imgs coco img_id).
    by rewrite Himg.
Qed.

Lemma load_mask_ignores_out_of_scope_witness :
  load_mask demo_store 1 rice_map
  = load_mask (without_annotation demo_store 12) 1 rice_map
  ∧ load_mask demo_store 1 rice_map
    = Ok [Np.zeros 1 2; raster 1 2 (mk_annotation 11 1 5 (pixel 0 1))].
Proof.
  split; [|reflexivity].
  apply (load_mask_ignores_out_of_scope demo_store 1 rice_map
           (mk_annotation 12 1 9 (pixel 0 0))).
  - decide_by_evaluation.
  - simpl. set_solver.
  - decide_by_evaluation.
Defined.

(** One write of the loop, on a state of the expected shape. *)
Lemma paint_in_scope (m : gmap Z Z) h w mask g a i :
  channel_index_map m →
  length mask = size m →
  m !! category_id a = Some i →
  paint m h w (mask, Np.tabulate h w g) a
  = Ok (<[Z.to_nat i := raster h w a]> mask,
        Np.tabulate h w (λ r c, Z.lor (g r c) (Z.b2z (segmentation a r c)))).
Proof.
  intros (_ & Hrange & _) Hlen Hi.
  unfold paint. rewrite decide_True by (apply elem_of_dom; eauto).
  unfold getitem. rewrite Hi. simpl.
  unfold Np.set_channel, Np.index.
  specialize (Hrange _ _ Hi). simpl in Hrange.
  rewrite decide_True by (rewrite Hlen; lia). simpl.
  unfold raster. rewrite broadcast_to_tabulate. simpl.
  unfold Np.bitwise_or. rewrite map2_tabulate. done.
Qed.

Lemma paint_out_of_scope (m : gmap Z Z) h w st a :
  ¬ in_scope m a → paint m h w st a = Ok st.
Proof. intros Ha. unfold paint. by rewrite decide_False. Qed.

(** The loop runs to its end, and leaves alone every channel that no
    annotation of the list is mapped to. *)
Lemma paint_all (m : gmap Z Z) h w l :
  channel_index_map m →
  ∀ mask g, length mask = size m →
  ∃ mask' g',
    for_each (paint m h w) l (mask, Np.tabulate h w g)
    = Ok (mask', Np.tabulate h w g')
    ∧ length mask' = size m
    ∧ ∀ k : nat,
        Forall (λ a, m !! category_id a ≠ Some (Z.of_nat k)) l →
        mask' !! k = mask !! k.
Proof.
  intros Hm. induction l as [|a l IH]; intros mask g Hlen.
  - exists mask, g. by repeat split.
  - simpl. destruct (m !! category_id a) as [i|] eqn:Hi.
    + rewrite (paint_in_scope m h w mask g a i) by done.
      edestruct (IH (<[Z.to_nat i := raster h w a]> mask)) as (mask' & g' & -> & Hlen' & Hkeep).
      { by rewrite length_insert. }
      exists mask', g'. repeat split; [done|].
      intros k [Hk Hl]%Forall_cons. rewrite Hkeep by done.
      apply list_lookup_insert_ne.
      intros <-. apply Hk. rewrite Hi. f_equal.
      destruct Hm as (_ & Hrange & _). specialize (Hrange _ _ Hi). simpl in Hrange.
      lia.
    + rewrite paint_out_of_scope by (unfold in_scope; by rewrite not_elem_of_dom).
      destruct (IH mask g Hlen) as (mask' & g' & -> & Hlen' & Hkeep).
      exists mask', g'. repeat split; [done|].
      intros k [_ Hl]%Forall_cons. by apply Hkeep.
Qed.

(** C5: each annotation in scope is written into the channel of its category
    by plain assignment, so that after the loop the channel of a category
    holds exactly the rasterization of the last annotation of that category
    in the order of the annotation query, whatever the earlier annotations of
    the category covered. *)
Theorem load_mask_last_write coco img_id img (m : gmap Z Z) c i l1 a l2 :
  NoDup (ann_id <$> annotations coco) →
  imgs coco img_id = Ok img →
  channel_index_map m →
  c ≠ 0 →
  m !! c = Some i →
  imgToAnns coco img_id = l1 ++ a :: l2 →
  category_id a = c →
  Forall (λ b, category_id b ≠ c) l2 →
  ∃ mask r,
    load_mask coco img_id m = Ok mask
    ∧ annToMask coco a = Ok r
    ∧ mask !! Z.to_nat i = Some (Np.as_float32 r).
Proof.
  intros Hnd Himg Hm Hc Hi Hanns Ha Hl2.
  pose proof Hm as (H0 & Hrange & _).
  pose proof (channel_index_map_inj m) as Hinj.
  pose proof (Hrange _ _ Hi) as Hir. simpl in Hir.
  assert (a ∈ imgToAnns coco img_id) as Hain.
  { rewrite Hanns. apply elem_of_app. right. by left. }
  apply elem_of_imgToAnns in Hain as [Haimg _].
  rewrite (load_mask_fold coco img_id img m Hnd Himg), Hanns.
  rewrite for_each_app.
  destruct (paint_all m (height img) (width img) l1 Hm
              (replicate (size m) (Np.zeros (height img) (width img)))
              (λ _ _, 0)) as (mask1 & g1 & Hrun1 & Hlen1 & _).
  { by rewrite length_replicate. }
  unfold Np.zeros at 2. rewrite Hrun1. simpl.
  rewrite (paint_in_scope m _ _ mask1 g1 a i) by (done || by rewrite Ha).
  destruct (paint_all m (height img) (width img) l2 Hm
              (<[Z.to_nat i := raster (height img) (width img) a]> mask1)
              (λ r c, Z.lor (g1 r c) (Z.b2z (segmentation a r c))))
    as (mask2 & g2 & -> & Hlen2 & Hkeep).
  { by rewrite length_insert. }
  simpl. rewrite set_background by lia.
  eexists _, _. split; [done|].
  split; [by apply (annToMask_raster coco img_id img)|].
  assert (i ≠ 0) as Hi0.
  { intros ->. apply Hc. by apply (Hinj c 0 0). }
  rewrite list_lookup_insert_ne by lia.
  rewrite Hkeep.
  - apply list_lookup_insert_eq. lia.
  - eapply Forall_impl; [exact Hl2|]. simpl.
    intros b Hb Hbi. apply Hb. apply (Hinj _ _ i); [done| |done].
    by rewrite Z2Nat.id in Hbi by lia.
Qed.

Lemma load_mask_last_write_witness :
  ∃ mask r,
    load_mask demo_store 1 rice_map = Ok mask
    ∧ annToMask demo_store (mk_annotation 11 1 5 (pixel 0 1)) = Ok r
    ∧ mask !! Z.to_nat 1 = Some (Np.as_float32 r).
Proof.
  apply (load_mask_last_write demo_store 1 (mk_image 1 "a.png" 1 2) rice_map
           5 1 [mk_annotation 10 1 5 (pixel 0 0)]
           (mk_annotation 11 1 5 (pixel 0 1))
           [mk_annotation 12 1 9 (pixel 0 0)]).
  - decide_by_evaluation.
  - reflexivity.
  - decide_by_evaluation.
  - lia.
  - reflexivity.
  - reflexivity.
  - reflexivity.
  - decide_by_evaluation.
Defined.

(** *** When no category repeats on the image

    The background is the negation of the union of the other channels as
    long as every annotation in scope is the only one of its category: each
    write then goes to a channel that is still zero. *)

Lemma union_at_cons ch chs r c :
  union_at (ch :: chs) r c = Z.max (Np.item ch r c) (union_at chs r c).
Proof. done. Qed.

Lemma union_at_nonneg chs r c : 0 ≤ union_at chs r c.
Proof.
  induction chs as [|ch chs IH]; [done|]. rewrite union_at_cons. lia.
Qed.

Lemma union_at_insert chs (k : nat) v ch r c :
  chs !! k = Some ch →
  Np.item ch r c = 0 →
  0 ≤ Np.item v r c →
  union_at (<[k := v]> chs) r c = Z.max (union_at chs r c) (Np.item v r c).
Proof.
  revert k. induction chs as [|x chs IH]; intros k Hk Hch Hv; [done|].
  destruct k as [|k].
  - injection Hk as ->. pose proof (union_at_nonneg chs r c) as Hu.
    change (<[0%nat := v]> (ch :: chs)) with (v :: chs).
    rewrite !union_at_cons. lia.
  - change (<[S k := v]> (x :: chs)) with (x :: <[k := v]> chs).
    rewrite !union_at_cons, (IH k) by done. lia.
Qed.

Lemma union_at_zeros h w n r c :
  (r < h)%nat → (c < w)%nat → union_at (replicate n (Np.zeros h w)) r c = 0.
Proof.
  intros Hr Hc. induction n as [|n IH]; [done|].
  rewrite replicate_S, union_at_cons, IH.
  unfold Np.zeros. by rewrite item_tabulate.
Qed.

Lemma paint_fresh (m : gmap Z Z) h w l :
  channel_index_map m →
  ∀ mask (gb : nat → nat → bool),
    length mask = size m →
    Forall (λ a, in_scope m a ∧ category_id a ≠ 0) l →
    NoDup (category_id <$> l) →
    (∀ a i, a ∈ l → m !! category_id a = Some i →
            mask !! Z.to_nat i = Some (Np.zeros h w)) →
    (∀ r c, (r < h)%nat → (c < w)%nat →
            union_at (tail mask) r c = Z.b2z (gb r c)) →
    ∃ mask' (gb' : nat → nat → bool),
      for_each (paint m h w) l (mask, Np.tabulate h w (λ r c, Z.b2z (gb r c)))
      = Ok (mask', Np.tabulate h w (λ r c, Z.b2z (gb' r c)))
      ∧ length mask' = size m
      ∧ ∀ r c, (r < h)%nat → (c < w)%nat →
               union_at (tail mask') r c = Z.b2z (gb' r c).
Proof.
  intros Hm. pose proof Hm as (H0 & Hrange & _).
  induction l as [|a l IH]; intros mask gb Hlen Hl Hnd Hzero Hunion.
  - exists mask, gb. by repeat split.
  - apply Forall_cons in Hl as [[Hin Hcat] Hl].
    rewrite fmap_cons in Hnd. apply NoDup_cons in Hnd as [Hfresh Hnd].
    apply elem_of_dom in Hin as [i Hi].
    pose proof (Hrange _ _ Hi) as Hir. simpl in Hir.
    assert (i ≠ 0) as Hi0.
    { intros ->. apply Hcat. by apply (channel_index_map_inj m _ 0 0). }
    simpl. rewrite (paint_in_scope m h w mask _ a i) by done.
    replace (Np.tabulate h w
               (λ r c, Z.lor (Z.b2z (gb r c)) (Z.b2z (segmentation a r c))))
      with (Np.tabulate h w (λ r c, Z.b2z (gb r c || segmentation a r c))).
    2:{ apply tabulate_ext. intros r c _ _.
        by destruct (gb r c), (segmentation a r c). }
    apply IH; [by rewrite length_insert|done|done| |].
    + intros b j Hb Hj.
      rewrite list_lookup_insert_ne.
      * apply (Hzero b j); [by right|done].
      * intros Heq.
        pose proof (Hrange _ _ Hj) as Hjr. simpl in Hjr.
        assert (i = j) as -> by lia.
        apply Hfresh. rewrite (channel_index_map_inj m _ _ j Hm Hi Hj).
        by apply list_elem_of_fmap_2.
    + intros r c Hr Hc.
      destruct (Z.to_nat i) as [|k] eqn:Hk; [lia|].
      assert (mask !! S k = Some (Np.zeros h w)) as Hch.
      { rewrite <- Hk. apply (Hzero a i); [by left|done]. }
      destruct mask as [|ch0 mask]; [done|]. simpl in *.
      rewrite (union_at_insert mask k _ (Np.zeros h w)); [|done|..].
      * rewrite Hunion by done. unfold raster. rewrite item_tabulate by done.
        by destruct (gb r c), (segmentation a r c).
      * unfold Np.zeros. by rewrite item_tabulate.
      * unfold raster. rewrite item_tabulate by done.
        by destruct (segmentation a r c).
Qed.

(** X22: for a channel index map and an image on which no two annotations
    in scope share a category (and none has the background id), [load_mask]
    returns a mask whose channel 0 is the negation of the union of the other
    channels. *)
Lemma load_mask_background_complement coco img_id img (m : gmap Z Z) :
  NoDup (ann_id <$> annotations coco) →
  imgs coco img_id = Ok img →
  channel_index_map m →
  NoDup (category_id <$> filter (in_scope m) (imgToAnns coco img_id)) →
  Forall (λ a, category_id a ≠ 0) (imgToAnns coco img_id) →
  ∃ mask, load_mask coco img_id m = Ok mask ∧ background_complement mask.
Proof.
  intros Hnd Himg Hm Hcats Hno0.
  rewrite (load_mask_in_scope coco img_id img m Hnd Himg).
  assert (0 < size m)%nat as Hsize.
  { destruct Hm as (H0 & _). apply Nat.neq_0_lt_0.
    by apply (map_size_ne_0_lookup_2 m 0). }
  destruct (paint_fresh m (height img) (width img)
              (filter (in_scope m) (imgToAnns coco img_id)) Hm
              (replicate (size m) (Np.zeros (height img) (width img)))
              (λ _ _, false))
    as (mask' & gb' & Hrun & Hlen & Hunion).
  - by rewrite length_replicate.
  - apply Forall_forall. intros a [Hin Ha]%list_elem_of_filter. split; [done|].
    rewrite Forall_forall in Hno0. by apply Hno0.
  - done.
  - intros a i Ha Hi. apply lookup_replicate_2.
    destruct Hm as (_ & Hrange & _). specialize (Hrange _ _ Hi). simpl in Hrange.
    lia.
  - intros r c Hr Hc. destruct (size m) as [|n]; [lia|].
    simpl. by apply union_at_zeros.
  - change (Np.tabulate (height img) (width img) (λ _ _, Z.b2z false))
      with (Np.zeros (height img) (width img)) in Hrun.
    rewrite Hrun, bind_Ok. simpl.
    rewrite set_background by lia.
    eexists. split; [done|].
    intros ch0 r c Hch0 Hr Hc.
    destruct mask' as [|x mask']; [simpl in Hlen; lia|].
    simpl in Hch0. injection Hch0 as <-. simpl in Hr, Hc.
    rewrite item_tabulate by done. simpl.
    simpl in Hunion. rewrite Hunion by done. done.
Qed.

Lemma load_mask_background_complement_witness :
  ∃ mask, load_mask demo_store 2 egg_map = Ok mask ∧ background_complement mask.
Proof.
  apply (load_mask_background_complement demo_store 2 (mk_image 2 "b.png" 2 2)
           egg_map).
  - decide_by_evaluation.
  - by vm_compute.
  - decide_by_evaluation.
  - decide_by_evaluation.
  - decide_by_evaluation.
Defined.

(** C1, at an image with two annotations of one category: [load_mask]
    keeps the last rice annotation only in the rice channel, while the
    background is cleared under both. The first pixel of image 1 is then 0 in
    every channel, and channel 0 is not the negation of the union of the
    other channels. *)
Theorem load_mask_background_not_complement :
  load_mask demo_store 1 rice_map
  = Ok [Np.mk_ndarray 1 2 [[0; 0]]; Np.mk_ndarray 1 2 [[0; 1]]]
  ∧ ¬ background_complement
        [Np.mk_ndarray 1 2 [[0; 0]]; Np.mk_ndarray 1 2 [[0; 1]]].
Proof.
  split; [by vm_compute|].
  intros Hbg.
  assert (0 = 1) as Habs; [|done].
  apply (Hbg (Np.mk_ndarray 1 2 [[0; 0]]) 0%nat 0%nat eq_refl); simpl; lia.
Qed.

End categorical_mask.


(** ** Dicts built from pairs *)

Section dict_facts.

Context {V : Type}.
Implicit Types (l : list (Z * V)) (k : Z) (v : V).

Lemma dict_of_pairs_snoc l k v :
  dict_of_pairs (l ++ [(k, v)]) = <[k := v]> (dict_of_pairs l).
Proof. unfold dict_of_pairs. by rewrite foldl_app. Qed.

Lemma dom_dict_of_pairs l : dom (dict_of_pairs l) = list_to_set l.*1.
Proof.
  induction l as [|[k v] l IH] using rev_ind.
  - unfold dict_of_pairs. simpl. apply dom_empty_L.
  - rewrite dict_of_pairs_snoc, dom_insert_L, IH.
    rewrite fmap_app, list_to_set_app_L. simpl.
    rewrite union_empty_r_L. apply (comm_L _).
Qed.

(** The value of a key is the one of its last pair. *)
Lemma dict_of_pairs_lookup l k :
  dict_of_pairs l !! k = snd <$> last (filter (λ kv, kv.1 = k) l).
Proof.
  induction l as [|[k' v] l IH] using rev_ind.
  - done.
  - rewrite dict_of_pairs_snoc, filter_app, filter_cons, filter_nil. simpl.
    destruct (decide (k' = k)) as [->|Hne].
    + by rewrite lookup_insert_eq, last_snoc.
    + by rewrite lookup_insert_ne, app_nil_r.
Qed.

Lemma dict_of_pairs_lookup_unique l k v :
  NoDup l.*1 → (k, v) ∈ l → dict_of_pairs l !! k = Some v.
Proof.
  intros Hnd Hkv. rewrite dict_of_pairs_lookup.
  pose proof (filter_key_unique fst l (k, v) Hnd Hkv) as Hf. simpl in Hf.
  by rewrite Hf.
Qed.

Lemma dict_of_pairs_size l :
  NoDup l.*1 → size (dict_of_pairs l) = length l.
Proof.
  intros Hnd. rewrite <- size_dom, dom_dict_of_pairs.
  by rewrite size_list_to_set, length_fmap.
Qed.

(** With distinct keys the order of the pairs does not matter. *)
Lemma dict_of_pairs_list_to_map l :
  NoDup l.*1 → dict_of_pairs l = list_to_map l.
Proof.
  intros Hnd. apply map_eq. intros k.
  destruct (list_to_map l !! k) as [v|] eqn:Hk.
  - apply elem_of_list_to_map_2 in Hk. by apply dict_of_pairs_lookup_unique.
  - apply not_elem_of_list_to_map_2 in Hk.
    by rewrite dict_of_pairs_lookup, (filter_key_absent fst l k).
Qed.

(** The dict of the pairs (id, f id). *)
Lemma dict_of_pairs_graph (f : Z → V) (ids : list Z) (c : Z) :
  dict_of_pairs ((λ id, (id, f id)) <$> ids) !! c
  = if decide (c ∈ ids) then Some (f c) else None.
Proof.
  induction ids as [|id ids IH] using rev_ind.
  - done.
  - rewrite fmap_app. simpl. rewrite dict_of_pairs_snoc.
    destruct (decide (id = c)) as [->|Hne].
    + rewrite lookup_insert_eq, decide_True; [done|].
      apply elem_of_app. right. by left.
    + rewrite lookup_insert_ne, IH by done.
      apply decide_ext. rewrite elem_of_app, elem_of_cons, elem_of_nil.
      split; [tauto | intros [?|[?|[]]]; [done|congruence]].
Qed.


End dict_facts.

Lemma range_lookup n (i : nat) : (i < n)%nat → range n !! i = Some (Z.of_nat i).
Proof.
  intros Hi. unfold range. by rewrite list_lookup_fmap, lookup_seq_lt.
Qed.

Lemma range_length n : length (range n) = n.
Proof. unfold range. by rewrite length_fmap, length_seq. Qed.

(** [dict(zip(keys, range(len(keys))))] numbers distinct keys by position. *)
Lemma dict_zip_range (keys : list Z) :
  NoDup keys →
  size (dict_of_pairs (zip keys (range (length keys)))) = length keys
  ∧ ∀ (i : nat) k, keys !! i = Some k →
      dict_of_pairs (zip keys (range (length keys))) !! k = Some (Z.of_nat i).
Proof.
  intros Hnd.
  assert ((zip keys (range (length keys))).*1 = keys) as Hfst.
  { apply fst_zip. by rewrite range_length. }
  split.
  - rewrite dict_of_pairs_size by (by rewrite Hfst).
    rewrite length_zip, range_length. lia.
  - intros i k Hk. apply dict_of_pairs_lookup_unique; [by rewrite Hfst|].
    apply list_elem_of_lookup. exists i.
    apply lookup_zip_with_Some. exists k, (Z.of_nat i).
    repeat split; [done|].
    apply range_lookup. by eapply lookup_lt_Some.
Qed.

Lemma elem_of_range n (v : Z) : v ∈ range n → 0 ≤ v < Z.of_nat n.
Proof.
  unfold range. intros (i & -> & Hi%elem_of_seq)%list_elem_of_fmap. lia.
Qed.

Lemma NoDup_range n : NoDup (range n).
Proof. unfold range. apply NoDup_fmap_2; [apply _ | apply NoDup_seq]. Qed.

(** Numbering distinct keys from 0, with key 0 first, gives a channel index
    map. *)
Lemma dict_zip_range_channel_index_map (keys : list Z) :
  NoDup (0 :: keys) →
  channel_index_map
    (dict_of_pairs (zip (0 :: keys) (range (length (0 :: keys))))).
Proof.
  intros Hnd.
  destruct (dict_zip_range (0 :: keys) Hnd) as [Hsize Hlookup].
  set (l := zip (0 :: keys) (range (length (0 :: keys)))) in *.
  assert (l.*1 = 0 :: keys) as Hfst.
  { apply fst_zip. by rewrite range_length. }
  assert (l.*2 = range (length (0 :: keys))) as Hsnd.
  { apply snd_zip. by rewrite range_length. }
  assert (NoDup l.*1) as Hnd1 by (by rewrite Hfst).
  split; [|split].
  - by apply (Hlookup 0%nat).
  - intros k v Hk. simpl. rewrite Hsize.
    rewrite dict_of_pairs_list_to_map in Hk by done.
    apply elem_of_list_to_map_2 in Hk.
    apply elem_of_range. rewrite <- Hsnd.
    apply list_elem_of_fmap. by exists (k, v).
  - rewrite dict_of_pairs_list_to_map by done.
    rewrite (map_to_list_to_map l Hnd1), Hsnd. apply NoDup_range.
Qed.

(** ** The category index builder *)

Section index_builder.

Import Coco SegmentationUtils.

Lemma getCatIds_sublist coco nms :
  getCatIds coco nms `sublist_of` cat_id <$> categories coco.
Proof.
  destruct nms as [[|nm nms]|]; simpl.
  - done.
  - apply fmap_sublist, sublist_filter; apply _.
  - apply sublist_nil_l.
Qed.

Lemma getImgIds_cat coco c :
  getImgIds coco [] [c] = elements (list_to_set (catToImgs coco c) : gset Z).
Proof.
  unfold getImgIds. by rewrite decide_True by apply size_empty.
Qed.

Lemma elem_of_getImgIds_cat coco c i :
  i ∈ getImgIds coco [] [c]
  ↔ ∃ a, a ∈ annotations coco ∧ image_id a = i ∧ category_id a = c.
Proof.
  rewrite getImgIds_cat, elem_of_elements, elem_of_list_to_set.
  unfold catToImgs. rewrite list_elem_of_fmap. split.
  - intros (a & -> & [Hc Ha]%list_elem_of_filter). by exists a.
  - intros (a & Ha & <- & Hc). exists a. split; [done|].
    by apply list_elem_of_filter.
Qed.

(** The images selected by a list of category ids: those annotated with one
    of them. *)
Lemma elem_of_selected_images coco (cat_ids : list Z) i :
  i ∈ elements (list_to_set (mjoin ((λ id, getImgIds coco [] [id]) <$> cat_ids))
                : gset Z)
  ↔ ∃ a, a ∈ annotations coco ∧ image_id a = i ∧ category_id a ∈ cat_ids.
Proof.
  rewrite elem_of_elements, elem_of_list_to_set.
  rewrite list_elem_of_join. split.
  - intros (l & Hi & (c & -> & Hc)%list_elem_of_fmap).
    apply elem_of_getImgIds_cat in Hi as (a & Ha & Himg & Hcat).
    exists a. by rewrite Hcat.
  - intros (a & Ha & Himg & Hcat).
    exists (getImgIds coco [] [category_id a]). split.
    + apply elem_of_getImgIds_cat. by exists a.
    + apply list_elem_of_fmap. by exists (category_id a).
Qed.

Lemma loadCats_Ok coco ids :
  ids ⊆ cat_id <$> categories coco →
  ∃ cs, loadCats coco ids = Ok cs ∧ length cs = length ids.
Proof.
  intros Hsub. unfold loadCats.
  destruct (comprehension_Ok (cats coco) ids) as (cs & Hcs & _).
  { intros c Hc. apply dict_lookup_elem. by apply Hsub. }
  exists cs. split; [done|]. by eapply comprehension_length.
Qed.

(** What [load_imgs] returns on a store whose annotations refer to images
    of the store. *)
Lemma load_imgs_result coco (class_names : list string) :
  Forall (λ a, image_id a ∈ img_id <$> images coco) (annotations coco) →
  ∃ img_ids img_names cs,
    length cs = length (getCatIds coco (Some class_names))
    ∧ load_imgs coco (Some class_names)
      = Ok (img_ids, img_names, "background"%string :: (cat_name <$> cs),
            dict_of_pairs
              (zip (0 :: getCatIds coco (Some class_names))
                   (range (length (0 :: getCatIds coco (Some class_names)))))).
Proof.
  intros Hrefs. unfold load_imgs.
  set (cat_ids := getCatIds coco (Some class_names)).
  pose proof (getCatIds_sublist coco (Some class_names)) as Hsub.
  fold cat_ids in Hsub.
  destruct (loadCats_Ok coco cat_ids) as (cs & -> & Hlen).
  { intros c Hc. eapply elem_of_sublist; [exact Hc | exact Hsub]. }
  rewrite bind_Ok.
  edestruct (comprehension_Ok
               (λ img_id, img ← loadImgs coco img_id ≫= head_exn; Ok (file_name img)))
    as (img_names & -> & _).
  { intros i (a & Ha & <- & _)%elem_of_selected_images.
    rewrite Forall_forall in Hrefs.
    destruct (dict_lookup_elem img_id (images coco) (image_id a)) as [img Himg].
    { by apply Hrefs. }
    unfold loadImgs, imgs. rewrite Himg. simpl. by eexists. }
  rewrite bind_Ok. eexists _, _, cs. split; [done|].
  simpl length. by rewrite length_fmap, Hlen.
Qed.

(** The map [load_imgs] builds is a channel index map. *)
Lemma load_imgs_builds_channel_index_map coco (class_names : list string)
    img_ids img_names names (m : gmap Z Z) :
  NoDup (cat_id <$> categories coco) →
  0 ∉ cat_id <$> categories coco →
  Forall (λ a, image_id a ∈ img_id <$> images coco) (annotations coco) →
  load_imgs coco (Some class_names) = Ok (img_ids, img_names, names, m) →
  channel_index_map m.
Proof.
  intros Hnd H0 Hrefs Hload.
  destruct (load_imgs_result coco class_names Hrefs) as (? & ? & cs & _ & Heq).
  rewrite Heq in Hload. injection Hload as _ _ _ <-.
  apply dict_zip_range_channel_index_map.
  pose proof (getCatIds_sublist coco (Some class_names)) as Hsub.
  apply NoDup_cons. split.
  - intros Hin. apply H0. eapply elem_of_sublist; [exact Hin | exact Hsub].
  - eapply sublist_NoDup; [exact Hnd | exact Hsub].
Qed.

(** C2: the channel index map built by [load_imgs] has one entry for the
    background and one for each resolved category: key 0 is mapped to 0 and
    the i-th category id returned by the category query to i + 1, in the
    order of the query. *)
Theorem load_imgs_channel_index_map coco (class_names : list string) :
  NoDup (cat_id <$> categories coco) →
  0 ∉ cat_id <$> categories coco →
  Forall (λ a, image_id a ∈ img_id <$> images coco) (annotations coco) →
  ∃ img_ids img_names names (m : gmap Z Z),
    load_imgs coco (Some class_names) = Ok (img_ids, img_names, names, m)
    ∧ size m = S (length (getCatIds coco (Some class_names)))
    ∧ m !! 0 = Some 0
    ∧ ∀ (i : nat) c,
        getCatIds coco (Some class_names) !! i = Some c →
        m !! c = Some (Z.of_nat i + 1).
Proof.
  intros Hnd H0 Hrefs. unfold load_imgs.
  set (cat_ids := getCatIds coco (Some class_names)).
  pose proof (getCatIds_sublist coco (Some class_names)) as Hsub.
  fold cat_ids in Hsub.
  destruct (loadCats_Ok coco cat_ids) as (cs & -> & Hlen).
  { intros c Hc. eapply elem_of_sublist; [exact Hc | exact Hsub]. }
  simpl.
  edestruct (comprehension_Ok
               (λ img_id, img ← loadImgs coco img_id ≫= head_exn; Ok (file_name img)))
    as (img_names & -> & _).
  { intros i (a & Ha & <- & _)%elem_of_selected_images.
    rewrite Forall_forall in Hrefs.
    destruct (dict_lookup_elem img_id (images coco) (image_id a)) as [img Himg].
    { by apply Hrefs. }
    unfold loadImgs, imgs. rewrite Himg. simpl. by eexists. }
  simpl. eexists _, _, _, _. split; [done|].
  rewrite length_fmap, Hlen.
  assert (NoDup (0 :: cat_ids)) as Hkeys.
  { apply NoDup_cons. split.
    - intros Hin. apply H0. eapply elem_of_sublist; [exact Hin | exact Hsub].
    - eapply sublist_NoDup; [exact Hnd | exact Hsub]. }
  destruct (dict_zip_range (0 :: cat_ids) Hkeys) as [Hsize Hlookup].
  simpl in Hsize, Hlookup.
  split; [exact Hsize|]. split.
  - by apply (Hlookup 0%nat).
  - intros i c Hc. rewrite (Hlookup (S i) c) by done. f_equal. lia.
Qed.

Lemma load_imgs_channel_index_map_witness :
  ∃ img_ids img_names names (m : gmap Z Z),
    load_imgs demo_store (Some ["rice"; "egg"]%string)
    = Ok (img_ids, img_names, names, m)
    ∧ size m = S (length (getCatIds demo_store (Some ["rice"; "egg"]%string)))
    ∧ m !! 0 = Some 0
    ∧ ∀ (i : nat) c,
        getCatIds demo_store (Some ["rice"; "egg"]%string) !! i = Some c →
        m !! c = Some (Z.of_nat i + 1).
Proof.
  apply (load_imgs_channel_index_map demo_store ["rice"; "egg"]%string).
  - decide_by_evaluation.
  - decide_by_evaluation.
  - decide_by_evaluation.
Defined.

(** ** The class distribution *)

(** C9: [get_class_dist] maps 0 to the number of distinct images annotated
    with at least one selected category, and each resolved category id to
    the number of distinct images annotated with that category. *)
Theorem get_class_dist_counts coco (class_names : list string) :
  0 ∉ cat_id <$> categories coco →
  (∃ imgs_any : gset Z,
     (∀ i, i ∈ imgs_any ↔
        ∃ a, a ∈ annotations coco ∧ image_id a = i
             ∧ category_id a ∈ getCatIds coco (Some class_names))
     ∧ get_class_dist coco (Some class_names) !! 0 = Some (size imgs_any))
  ∧ ∀ c, c ∈ getCatIds coco (Some class_names) →
      ∃ imgs_c : gset Z,
        (∀ i, i ∈ imgs_c ↔
           ∃ a, a ∈ annotations coco ∧ image_id a = i ∧ category_id a = c)
        ∧ get_class_dist coco (Some class_names) !! c = Some (size imgs_c).
Proof.
  intros H0. unfold get_class_dist.
  set (cat_ids := getCatIds coco (Some class_names)).
  assert (0 ∉ cat_ids) as H0'.
  { intros Hin. apply H0.
    eapply elem_of_sublist; [exact Hin | apply getCatIds_sublist]. }
  split.
  - eexists. split.
    + intros i. rewrite <- (elem_of_selected_images coco cat_ids i).
      by rewrite elem_of_elements.
    + rewrite lookup_union_r.
      * by rewrite lookup_singleton_eq.
      * by rewrite dict_of_pairs_graph, decide_False.
  - intros c Hc. exists (list_to_set (catToImgs coco c)). split.
    + intros i. rewrite <- elem_of_getImgIds_cat, getImgIds_cat.
      by rewrite elem_of_elements.
    + rewrite lookup_union_l'.
      * rewrite dict_of_pairs_graph, decide_True by done.
        by rewrite getImgIds_cat.
      * rewrite dict_of_pairs_graph, decide_True by done. by eexists.
Qed.

Lemma get_class_dist_counts_witness :
  (∃ imgs_any : gset Z,
     (∀ i, i ∈ imgs_any ↔
        ∃ a, a ∈ annotations demo_store ∧ image_id a = i
             ∧ category_id a ∈ getCatIds demo_store (Some []))
     ∧ get_class_dist demo_store (Some []) !! 0 = Some (size imgs_any))
  ∧ ∀ c, c ∈ getCatIds demo_store (Some []) →
      ∃ imgs_c : gset Z,
        (∀ i, i ∈ imgs_c ↔
           ∃ a, a ∈ annotations demo_store ∧ image_id a = i ∧ category_id a = c)
        ∧ get_class_dist demo_store (Some []) !! c = Some (size imgs_c).
Proof.
  apply (get_class_dist_counts demo_store []).
  decide_by_evaluation.
Defined.

(** On the small store: two images carry a selected category, one carries
    rice, one egg, one tea. *)
Example get_class_dist_demo :
  get_class_dist demo_store None
  = dict_of_pairs [(0, 2%nat); (5, 1%nat); (7, 1%nat); (9, 1%nat)].
Proof. by vm_compute. Qed.

(** ** The default selection *)

(** Without the normalization, pycocotools would look for the categories
    named None and find none. *)
Lemma getCatIds_None coco : getCatIds coco None = [].
Proof. done. Qed.


End index_builder.

(** ** The label map of the extractor *)

Section extractor_labels.

Import Coco ExtractSegmentations.

(** The head of a sorted list that holds 0 and, besides, positive numbers
    only. *)
Lemma sorted_head_0 (l ids : list Z) :
  StronglySorted Z.le l → l ≡ₚ 0 :: ids → Forall (λ x, 0 < x) ids →
  l !! 0%nat = Some 0.
Proof.
  intros Hsorted Hperm Hpos.
  destruct l as [|x l].
  - by apply Permutation_nil_cons in Hperm.
  - simpl. f_equal.
    apply StronglySorted_inv in Hsorted as [_ Hle].
    rewrite Forall_forall in Hle, Hpos.
    assert (0 ∈ x :: l) as H0 by (rewrite Hperm; by left).
    assert (x ∈ 0 :: ids) as Hx by (rewrite <- Hperm; by left).
    apply elem_of_cons in H0 as [H0|H0]; [done|].
    apply elem_of_cons in Hx as [Hx|Hx]; [done|].
    specialize (Hle 0 H0). specialize (Hpos x Hx). lia.
Qed.

(** [__init__] numbers 0 and the category ids in increasing order of id:
    for distinct positive ids, [mapCatIdsLabels] has one entry more than
    there are categories and maps 0 to 0. Its order is the order of the
    ids, not the order of the category query. *)
Lemma init_mapCatIdsLabels pathDir imgDir annotationFile masksDir store :
  NoDup (cat_id <$> categories store) →
  Forall (λ x, 0 < x) (cat_id <$> categories store) →
  Sorted Z.le (catIds (init pathDir imgDir annotationFile masksDir store))
  ∧ size (mapCatIdsLabels (init pathDir imgDir annotationFile masksDir store))
    = S (length (categories store))
  ∧ mapCatIdsLabels (init pathDir imgDir annotationFile masksDir store) !! 0
    = Some 0.
Proof.
  intros Hnd Hpos. simpl.
  set (ids := cat_id <$> categories store) in *.
  pose proof (merge_sort_Permutation Z.le (0 :: ids)) as Hperm.
  assert (NoDup (merge_sort Z.le (0 :: ids))) as Hnd'.
  { rewrite Hperm. apply NoDup_cons. split; [|done].
    intros H0. rewrite Forall_forall in Hpos. specialize (Hpos 0 H0). lia. }
  destruct (dict_zip_range _ Hnd') as [Hsize Hlookup].
  split; [apply Sorted_merge_sort; apply _|]. split.
  - rewrite Hsize, Hperm. simpl. unfold ids. by rewrite length_fmap.
  - apply (Hlookup 0%nat).
    apply (sorted_head_0 _ ids); [|done|done].
    apply StronglySorted_merge_sort; apply _.
Qed.

(** X8: [__init__] numbers the background id 0 and the category ids of
    the store by rank: [catIds] holds them in increasing order, and
    [mapCatIdsLabels] has one entry for each and maps the id at position i
    of [catIds] to i, whatever the order of the categories in the
    annotation file. *)
Theorem init_labels_by_rank pathDir imgDir annotationFile masksDir store :
  NoDup (cat_id <$> categories store) →
  0 ∉ cat_id <$> categories store →
  Sorted Z.le (catIds (init pathDir imgDir annotationFile masksDir store))
  ∧ catIds (init pathDir imgDir annotationFile masksDir store)
    ≡ₚ 0 :: (cat_id <$> categories store)
  ∧ size (mapCatIdsLabels (init pathDir imgDir annotationFile masksDir store))
    = S (length (categories store))
  ∧ ∀ (i : nat) k,
      catIds (init pathDir imgDir annotationFile masksDir store) !! i = Some k →
      mapCatIdsLabels (init pathDir imgDir annotationFile masksDir store) !! k
      = Some (Z.of_nat i).
Proof.
  intros Hnd H0. simpl.
  set (ids := cat_id <$> categories store) in *.
  pose proof (merge_sort_Permutation Z.le (0 :: ids)) as Hperm.
  assert (NoDup (merge_sort Z.le (0 :: ids))) as Hnd'.
  { rewrite Hperm. apply NoDup_cons. by split. }
  destruct (dict_zip_range _ Hnd') as [Hsize Hlookup].
  split; [apply Sorted_merge_sort; apply _|].
  split; [exact Hperm|]. split; [|exact Hlookup].
  rewrite Hsize, Hperm. simpl. unfold ids. by rewrite length_fmap.
Qed.

Lemma init_labels_by_rank_witness :
  Sorted Z.le (catIds (init "d/" "/images/" "annotations.json" "masks/"
                         demo_store_reversed))
  ∧ catIds (init "d/" "/images/" "annotations.json" "masks/" demo_store_reversed)
    ≡ₚ 0 :: (cat_id <$> categories demo_store_reversed)
  ∧ size (mapCatIdsLabels (init "d/" "/images/" "annotations.json" "masks/"
                             demo_store_reversed))
    = S (length (categories demo_store_reversed))
  ∧ ∀ (i : nat) k,
      catIds (init "d/" "/images/" "annotations.json" "masks/"
                demo_store_reversed) !! i = Some k →
      mapCatIdsLabels (init "d/" "/images/" "annotations.json" "masks/"
                         demo_store_reversed) !! k
      = Some (Z.of_nat i).
Proof.
  apply (init_labels_by_rank "d/" "/images/" "annotations.json" "masks/"
           demo_store_reversed).
  - decide_by_evaluation.
  - decide_by_evaluation.
Defined.

Example init_demo :
  catIds (init "d/" "/images/" "annotations.json" "masks/" demo_store)
  = [0; 5; 7; 9].
Proof. by vm_compute. Qed.

End extractor_labels.

(** ** The label masks and the binary masks *)

Section extract_masks.

Import Coco ExtractSegmentations.

(** Both extraction loops collect the mask of each image and write it. *)
Lemma collect_masks (f : image → result Np.ndarray) (path : image → string)
    imgs ms fs :
  for_each
    (λ '(masks, files) img,
       mask ← f img; Ok (masks ++ [mask], files ++ [(path img, mask)]))
    imgs (ms, fs)
  = new ← comprehension f imgs; Ok (ms ++ new, fs ++ zip (path <$> imgs) new).
Proof.
  revert ms fs. induction imgs as [|img imgs IH]; intros ms fs; simpl.
  - by rewrite !app_nil_r.
  - destruct (f img) as [mask|]; simpl; [|done].
    rewrite IH. destruct (comprehension f imgs); simpl; [|done].
    by rewrite <- !app_assoc.
Qed.

(** The images the extraction loops go through are records of the store. *)
Lemma loadImgs_all coco :
  ∃ imgs', loadImgs_list coco (getImgIds coco [] []) = Ok imgs'
           ∧ Forall (λ img, imgs coco (img_id img) = Ok img) imgs'.
Proof.
  unfold loadImgs_list, getImgIds.
  destruct (comprehension_Ok (imgs coco) (dict_keys (img_id <$> images coco)))
    as (imgs' & Himgs & Hall).
  { intros i Hi. apply (proj1 (elem_of_dict_keys _ _)) in Hi.
    unfold imgs. by apply dict_lookup_elem. }
  exists imgs'. split; [done|].
  clear Himgs. induction Hall as [|i img ids imgs' Hi _ IH]; constructor; [|done].
  by destruct (dict_lookup_Ok _ _ _ _ Hi) as [_ ->].
Qed.

Lemma sum_list_Z_app l1 l2 :
  sum_list_Z (l1 ++ l2) = sum_list_Z l1 + sum_list_Z l2.
Proof.
  unfold sum_list_Z. induction l1 as [|x l1 IH]; simpl; [done|].
  rewrite IH. lia.
Qed.

(** A value that wrapped in a wider unsigned type wraps to the same uint16. *)
Lemma mod_wider x k : 0 < k → (x `mod` (65536 * k)) `mod` 65536 = x `mod` 65536.
Proof.
  intros Hk. rewrite Z.rem_mul_r by lia.
  rewrite (Z.mul_comm 65536), Z_mod_plus_full. apply Z.mod_mod. lia.
Qed.

(** One turn of the loop of [extractMasks] at a pixel, whatever the width
    the product wrapped in. *)
Lemma label_value_snoc l a r c k :
  0 < k →
  (label_value l r c
   + (Z.b2z (segmentation a r c) `mod` 65536 * category_id a) `mod` (65536 * k))
    `mod` 65536
  = label_value (l ++ [a]) r c.
Proof.
  intros Hk. unfold label_value, covering.
  rewrite filter_app, fmap_app, sum_list_Z_app, filter_cons, filter_nil.
  generalize (sum_list_Z (category_id <$> filter (λ b, segmentation b r c = true) l)).
  intros s.
  rewrite Z.add_mod, Z.mod_mod, mod_wider, <- Z.add_mod by lia. f_equal. f_equal.
  destruct (decide (segmentation a r c = true)) as [Hs|Hs%not_true_is_false];
    rewrite Hs.
  - change (Z.b2z true `mod` 65536) with 1.
    unfold sum_list_Z. simpl. lia.
  - change (Z.b2z false `mod` 65536 * category_id a) with 0.
    unfold sum_list_Z. simpl. done.
Qed.

(** The product by a category id numpy keeps unsigned wraps in uint16,
    uint32 or uint64; any other category id is refused. *)
Lemma times_category_unsigned h w f catId :
  0 ≤ catId < 2 ^ 64 →
  ∃ k, 0 < k
       ∧ times_category (Np.tabulate h w f) catId
         = Ok (Np.tabulate h w (λ r c, (f r c * catId) `mod` (65536 * k))).
Proof.
  intros Hcat. unfold times_category. repeat case_decide; try lia.
  - exists 1. split; [lia|]. by rewrite map1_tabulate.
  - exists (2 ^ 16). split; [lia|]. by rewrite map1_tabulate.
  - exists (2 ^ 48). split; [lia|]. by rewrite map1_tabulate.
Qed.

Lemma times_category_refused m catId :
  ¬ 0 ≤ catId < 2 ^ 64 → times_category m catId = Raise TypeError.
Proof.
  intros Hcat. unfold times_category. repeat case_decide; (done || lia).
Qed.

Section per_image.

Context (self : t) (img : image).
Hypothesis ann_ids_unique : NoDup (ann_id <$> annotations (coco self)).
Hypothesis img_known : imgs (coco self) (img_id img) = Ok img.

(** The label mask of an image: at each pixel the sum, in uint16, of the
    category ids of the annotations of the image covering it. *)
Lemma label_mask_sum :
  Forall unsigned_category (imgToAnns (coco self) (img_id img)) →
  label_mask self img
  = Ok (Np.tabulate (height img) (width img)
          (label_value (imgToAnns (coco self) (img_id img)))).
Proof.
  unfold label_mask, getAnnIds. rewrite for_each_fmap.
  assert (∀ l, Forall (λ a, a ∈ imgToAnns (coco self) (img_id img)) l →
            Forall unsigned_category l →
            for_each
              (λ mask a,
                 ann ← loadAnns (coco self) (ann_id a) ≫= head_exn;
                 m ← annToMask (coco self) ann;
                 v ← times_category (Np.as_uint16 m) (category_id ann);
                 iadd_uint16 mask v)
              l (Np.zeros (height img) (width img))
            = Ok (Np.tabulate (height img) (width img) (label_value l))) as Hgen.
  { induction l as [|a l IH] using rev_ind; intros Hin Hcat.
    - done.
    - apply Forall_app in Hin as [Hin [Ha _]%Forall_cons].
      apply Forall_app in Hcat as [Hcat [Hacat _]%Forall_cons].
      rewrite for_each_app, IH by done. simpl.
      apply elem_of_imgToAnns in Ha as [Haimg Ha].
      rewrite loadAnns_unique by done. rewrite bind_Ok.
      rewrite (annToMask_raster (coco self) (img_id img) img) by done.
      rewrite bind_Ok.
      unfold Np.as_uint16, raster. rewrite map1_tabulate.
      destruct (times_category_unsigned (height img) (width img)
                  (λ r c, Z.b2z (segmentation a r c) `mod` 65536)
                  (category_id a) Hacat) as (k & Hk & ->).
      rewrite bind_Ok.
      unfold iadd_uint16. simpl. rewrite broadcast_to_tabulate, bind_Ok.
      rewrite map2_tabulate. f_equal.
      apply tabulate_ext. intros r c _ _. by apply label_value_snoc. }
  intros Hcat. apply Hgen; [|done].
  by apply Forall_forall.
Qed.

(** The binary mask of an image: 1 exactly where an annotation covers. *)
Lemma binary_mask_covered :
  binary_mask self img
  = Ok (Np.tabulate (height img) (width img)
          (λ r c, Z.b2z (covered (imgToAnns (coco self) (img_id img)) r c))).
Proof.
  unfold binary_mask, getAnnIds. rewrite for_each_fmap.
  assert (∀ l, Forall (λ a, a ∈ imgToAnns (coco self) (img_id img)) l →
            for_each
              (λ mask a,
                 ann ← loadAnns (coco self) (ann_id a) ≫= head_exn;
                 m ← annToMask (coco self) ann;
                 Np.bitwise_or mask (Np.as_uint8 m))
              l (Np.zeros (height img) (width img))
            = Ok (Np.tabulate (height img) (width img)
                    (λ r c, Z.b2z (covered l r c)))) as Hgen.
  { induction l as [|a l IH] using rev_ind; intros Hin.
    - done.
    - apply Forall_app in Hin as [Hin [Ha _]%Forall_cons].
      rewrite for_each_app, IH by done. simpl.
      apply elem_of_imgToAnns in Ha as [Haimg Ha].
      rewrite loadAnns_unique by done. rewrite bind_Ok.
      rewrite (annToMask_raster (coco self) (img_id img) img) by done.
      rewrite bind_Ok.
      unfold Np.as_uint8, raster, Np.bitwise_or.
      rewrite map1_tabulate, map2_tabulate. f_equal.
      apply tabulate_ext. intros r c _ _.
      unfold covered. rewrite existsb_app. simpl.
      by destruct (existsb _ l), (segmentation a r c). }
  apply Hgen. by apply Forall_forall.
Qed.

End per_image.

(** C7: the flattened label mask [extractMasks] produces for an image has,
    at every pixel, the sum of the category ids of the annotations of the
    image that cover the pixel, computed modulo 2^16; annotations of distinct
    categories that overlap leave their raw sum. The category ids are any
    that numpy accepts: those of the annotations of the images of the store
    are not negative and fit a uint64; they need not fit a uint16. *)
Theorem extractMasks_label_sum self :
  NoDup (ann_id <$> annotations (coco self)) →
  Forall (λ a, image_id a ∈ img_id <$> images (coco self) → unsigned_category a)
    (annotations (coco self)) →
  ∃ imgs' masks files,
    loadImgs_list (coco self) (getImgIds (coco self) [] []) = Ok imgs'
    ∧ extractMasks self = Ok (masks, files)
    ∧ Forall2
        (λ img mask,
           mask = Np.tabulate (height img) (width img)
                    (label_value (imgToAnns (coco self) (img_id img))))
        imgs' masks.
Proof.
  intros Hnd Hcat.
  assert (∀ img, imgs (coco self) (img_id img) = Ok img →
            Forall unsigned_category (imgToAnns (coco self) (img_id img)))
    as Hrange.
  { intros img Himg. apply Forall_forall. intros a [Haimg Ha]%elem_of_imgToAnns.
    rewrite Forall_forall in Hcat. apply (Hcat a Ha). rewrite Haimg.
    unfold imgs in Himg. apply dict_lookup_Ok in Himg as [Himg _].
    by apply list_elem_of_fmap_2. }
  destruct (loadImgs_all (coco self)) as (imgs' & Himgs & Hall).
  exists imgs'. unfold extractMasks. rewrite Himgs, bind_Ok, collect_masks.
  destruct (comprehension_Ok (label_mask self) imgs') as (masks & -> & Hmasks).
  { intros img Himg. rewrite Forall_forall in Hall.
    rewrite label_mask_sum; [by eexists|done|by apply Hall|].
    by apply Hrange, Hall. }
  rewrite bind_Ok. eexists _, _. repeat split.
  clear Himgs. induction Hmasks as [|img mask imgs' masks Hmask _ IH].
  - constructor.
  - apply Forall_cons in Hall as [Himg Hall]. constructor; [|by apply IH].
    rewrite label_mask_sum in Hmask; [by injection Hmask|done..|].
    by apply Hrange.
Qed.

Lemma extractMasks_label_sum_witness :
  ∃ imgs' masks files,
    loadImgs_list demo_store_wide (getImgIds demo_store_wide [] []) = Ok imgs'
    ∧ extractMasks
        (init "d/" "/images/" "annotations.json" "masks/" demo_store_wide)
      = Ok (masks, files)
    ∧ Forall2
        (λ img mask,
           mask = Np.tabulate (height img) (width img)
                    (label_value (imgToAnns demo_store_wide (img_id img))))
        imgs' masks.
Proof.
  apply (extractMasks_label_sum
           (init "d/" "/images/" "annotations.json" "masks/" demo_store_wide)).
  - decide_by_evaluation.
  - decide_by_evaluation.
Defined.

(** A category id of 70000 wraps: the last pixel of image 2 gets
    70000 - 65536. *)
Example extractMasks_wide_category :
  fst <$> extractMasks
            (init "d/" "/images/" "annotations.json" "masks/" demo_store_wide)
  = Ok [ Np.mk_ndarray 1 2 [[14; 5]]; Np.mk_ndarray 2 2 [[7; 0]; [0; 4464]] ].
Proof. by vm_compute. Qed.

(** On the small store the rice and the tea annotations overlap on the first
    pixel of image 1, which gets 5 + 9. *)
Example extractMasks_demo :
  fst <$> extractMasks (init "d/" "/images/" "annotations.json" "masks/" demo_store)
  = Ok [ Np.mk_ndarray 1 2 [[14; 5]]; Np.mk_ndarray 2 2 [[7; 0]; [0; 0]] ].
Proof. by vm_compute. Qed.

Lemma covered_elem l a r c :
  a ∈ l → segmentation a r c = true → covered l r c = true.
Proof.
  intros Ha Hs. unfold covered. apply existsb_exists.
  exists a. split; [by apply list_elem_of_In | done].
Qed.

(** [np.bitwise_or] is idempotent on masks: or-ing a rasterization in a
    second time changes nothing. *)
Lemma bitwise_or_twice h w f (a : annotation) :
  Np.bitwise_or (Np.tabulate h w f) (Np.as_uint8 (raster h w a))
    ≫= (λ mask, Np.bitwise_or mask (Np.as_uint8 (raster h w a)))
  = Np.bitwise_or (Np.tabulate h w f) (Np.as_uint8 (raster h w a)).
Proof.
  unfold Np.bitwise_or, Np.as_uint8, raster.
  rewrite map1_tabulate, map2_tabulate, bind_Ok, map2_tabulate.
  f_equal. apply tabulate_ext. intros r c _ _.
  by rewrite <- Z.lor_assoc, Z.lor_diag.
Qed.

(** C8: the binary union mask is idempotent under duplicate annotations:
    with a copy of one of its annotations added to the store, so that its
    rasterization is or-ed in twice, [extractBinaryMasks] produces the same
    masks as without the copy. *)
Theorem extractBinaryMasks_duplicate
    pathDir imgDir annotationFile masksDir store a k :
  NoDup (ann_id <$> annotations store) →
  a ∈ annotations store →
  k ∉ ann_id <$> annotations store →
  ∃ res,
    extractBinaryMasks (init pathDir imgDir annotationFile masksDir store)
    = Ok res
    ∧ extractBinaryMasks
        (init pathDir imgDir annotationFile masksDir
           (with_annotation store (duplicate a k)))
      = Ok res.
Proof.
  intros Hnd Ha Hk.
  set (self := init pathDir imgDir annotationFile masksDir store).
  set (self' := init pathDir imgDir annotationFile masksDir
                  (with_annotation store (duplicate a k))).
  assert (NoDup (ann_id <$> annotations (coco self'))) as Hnd'.
  { simpl. rewrite fmap_app. apply NoDup_app. repeat split; [done| |].
    - intros x Hx [->|[]%elem_of_nil]%elem_of_cons. done.
    - apply NoDup_singleton. }
  destruct (loadImgs_all store) as (imgs' & Himgs & Hall).
  unfold extractBinaryMasks.
  change (loadImgs_list (coco self') (getImgIds (coco self') [] []))
    with (loadImgs_list store (getImgIds store [] [])).
  change (loadImgs_list (coco self) (getImgIds (coco self) [] []))
    with (loadImgs_list store (getImgIds store [] [])).
  rewrite Himgs, !bind_Ok, !collect_masks.
  destruct (comprehension_Ok (binary_mask self) imgs') as (masks & Hmasks & _).
  { intros img Himg. rewrite Forall_forall in Hall.
    rewrite binary_mask_covered; [by eexists|done|by apply Hall]. }
  rewrite (comprehension_ext (binary_mask self') (binary_mask self)).
  { rewrite Hmasks, !bind_Ok. by eexists. }
  intros img Himg. rewrite Forall_forall in Hall.
  rewrite !binary_mask_covered by (done || by apply Hall).
  f_equal. apply tabulate_ext. intros r c _ _. f_equal.
  change (imgToAnns (coco self') (img_id img))
    with (filter (λ b, image_id b = img_id img) (annotations store ++ [duplicate a k])).
  change (imgToAnns (coco self) (img_id img)) with (imgToAnns store (img_id img)).
  rewrite filter_app, filter_cons, filter_nil.
  unfold covered at 1. rewrite existsb_app. fold (covered (imgToAnns store (img_id img)) r c).
  destruct (decide (image_id (duplicate a k) = img_id img)) as [Himg_a|_]; simpl.
  - destruct (segmentation a r c) eqn:Hs; simpl.
    + rewrite orb_true_r. symmetry. apply (covered_elem _ a); [|done].
      by apply elem_of_imgToAnns.
    + by rewrite !orb_false_r.
  - by rewrite orb_false_r.
Qed.

Lemma extractBinaryMasks_duplicate_witness :
  ∃ res,
    extractBinaryMasks
      (init "d/" "/images/" "annotations.json" "masks/" demo_store)
    = Ok res
    ∧ extractBinaryMasks
        (init "d/" "/images/" "annotations.json" "masks/"
           (with_annotation demo_store
              (duplicate (mk_annotation 10 1 5 (pixel 0 0)) 14)))
      = Ok res.
Proof.
  apply (extractBinaryMasks_duplicate "d/" "/images/" "annotations.json"
           "masks/" demo_store (mk_annotation 10 1 5 (pixel 0 0)) 14).
  - decide_by_evaluation.
  - simpl. set_solver.
  - decide_by_evaluation.
Defined.

Example extractBinaryMasks_demo :
  fst <$> extractBinaryMasks
            (init "d/" "/images/" "annotations.json" "masks/" demo_store)
  = Ok [ Np.mk_ndarray 1 2 [[1; 1]]; Np.mk_ndarray 2 2 [[1; 0]; [0; 0]] ].
Proof. by vm_compute. Qed.

End extract_masks.

(** ** The dataset loader *)

Section dataset_loader.

Import Coco SegmentationUtils.

(** The mask of an image cannot be scaled to a target size that is not
    square: the size (height, width) reaches PIL as (width, height), and the
    resized channel does not fit its slot. *)
Lemma scale_mask_non_square h w n ch mask :
  h ≠ w → (0 < n)%nat →
  scale_mask (h, w) n (ch :: mask) = Raise ValueError.
Proof.
  intros Hhw Hn. unfold scale_mask.
  destruct n as [|n]; [lia|].
  unfold range. simpl seq. rewrite fmap_cons. simpl for_each.
  destruct (decide (h < 1 ∨ w < 1)%nat) as [|Hpos]; [done|].
  rewrite bind_Ok. unfold Np.set_channel, Np.index.
  rewrite decide_True by (simpl; lia). rewrite bind_Ok.
  unfold Np.broadcast_to. simpl.
  rewrite decide_False; [done|]. lia.
Qed.

(** To a square target size every channel is scaled on its own, by
    nearest-neighbour sampling. *)
Lemma scale_mask_square t mask :
  (1 ≤ t)%nat →
  scale_mask (t, t) (length mask) mask = Ok (nearest_resize t t <$> mask).
Proof.
  intros Ht. unfold scale_mask, range. simpl fst. simpl snd.
  set (body := λ (mask_scaled : list Np.ndarray) (j : Z),
         ch ← Np.get_channel mask j;
         resized ← Pil.resize (t, t) ch;
         Np.set_channel t t mask_scaled j (Np.as_uint8 resized)).
  assert (∀ k, (k ≤ length mask)%nat →
            for_each body (Z.of_nat <$> seq 0 k)
              (replicate (length mask) (Np.zeros t t))
            = Ok ((nearest_resize t t <$> take k mask)
                  ++ replicate (length mask - k) (Np.zeros t t))) as Hgen.
  { induction k as [|k IH]; intros Hk.
    - simpl. by rewrite Nat.sub_0_r.
    - rewrite seq_S, fmap_app, for_each_app, IH by lia. rewrite bind_Ok.
      simpl. destruct (lookup_lt_is_Some_2 mask k) as [ch Hch]; [lia|].
      unfold body, Np.get_channel, Np.index.
      rewrite decide_True by lia. rewrite bind_Ok, Nat2Z.id, Hch. simpl.
      rewrite decide_False by lia. rewrite bind_Ok.
      unfold Np.set_channel, Np.index.
      rewrite decide_True.
      2:{ rewrite length_app, length_fmap, length_take_le, length_replicate by lia.
          lia. }
      rewrite bind_Ok, Nat2Z.id.
      unfold Np.as_uint8. rewrite map1_tabulate, broadcast_to_tabulate, bind_Ok.
      f_equal.
      rewrite (take_S_r mask k ch Hch), fmap_app. simpl.
      replace (length mask - k)%nat with (S (length mask - S k)) by lia.
      rewrite replicate_S, <- app_assoc. simpl.
      rewrite insert_app_r_alt by (rewrite length_fmap, length_take_le; lia).
      rewrite length_fmap, length_take_le, Nat.sub_diag by lia. simpl.
      unfold nearest_resize, Np.as_uint8. by rewrite map1_tabulate. }
  rewrite Hgen by done.
  by rewrite take_ge, Nat.sub_diag, app_nil_r.
Qed.

(** C6, at a target size that is not square: [load_data] raises instead of
    returning X and Y. *)
Theorem load_data_non_square_raises :
  load_data demo_store demo_files "imgs" (1%nat, 2%nat) (Some ["rice"%string]) true
  = Raise ValueError.
Proof. by vm_compute. Qed.

(** With a square target size the arrays come out: one image of the store
    carries rice; X is 1 x 2 x 2 x 3 and Y is 1 x 2 x 2 x 2, each channel of
    Y sampled from the native mask. *)
Example load_data_square :
  load_data demo_store demo_files "imgs" (2%nat, 2%nat) (Some ["rice"%string]) true
  = Ok ([[Np.zeros 2 2; Np.zeros 2 2; Np.zeros 2 2]],
        [[Np.mk_ndarray 2 2 [[0; 0]; [0; 0]];
          Np.mk_ndarray 2 2 [[0; 1]; [0; 1]]]]).
Proof. by vm_compute. Qed.

End dataset_loader.

(** * Further properties of the code *)

(** ** When [load_mask] returns, and what *)

Section load_mask_outcome.

Import Coco SegmentationUtils.

Lemma comprehension_Raise {A B} (f : A → result B) (e : exn) l :
  Forall (λ a, f a = Raise e ∨ ∃ b, f a = Ok b) l →
  Exists (λ a, f a = Raise e) l →
  comprehension f l = Raise e.
Proof.
  induction l as [|a l IH]; intros Hall Hex.
  - by apply Exists_nil in Hex.
  - apply Forall_cons in Hall as [Ha Hall]. simpl.
    destruct Ha as [->|[b Hb]]; [done|]. rewrite Hb.
    apply Exists_cons in Hex as [Hex|Hex]; [congruence|].
    by rewrite IH.
Qed.

Lemma index_valid n i :
  - Z.of_nat n ≤ i < Z.of_nat n → ∃ k, Np.index n i = Ok k ∧ (k < n)%nat.
Proof.
  intros Hi. unfold Np.index.
  destruct (decide (0 ≤ i < Z.of_nat n)).
  - exists (Z.to_nat i). split; [done|lia].
  - rewrite decide_True by lia. exists (Z.to_nat (Z.of_nat n + i)).
    split; [done|lia].
Qed.

Lemma index_invalid n i :
  ¬ (- Z.of_nat n ≤ i < Z.of_nat n) → Np.index n i = Raise IndexError.
Proof.
  intros Hi. unfold Np.index. by rewrite !decide_False by lia.
Qed.

Lemma binary_plane_raster h w a : binary_plane h w (raster h w a).
Proof. by exists (segmentation a). Qed.

Lemma binary_plane_zeros h w : binary_plane h w (Np.zeros h w).
Proof. by exists (λ _ _, false). Qed.

Lemma paint_step_valid (m : gmap Z Z) h w mask (gb : nat → nat → bool) a i k :
  m !! category_id a = Some i →
  Np.index (length mask) i = Ok k →
  paint m h w (mask, Np.tabulate h w (λ r c, Z.b2z (gb r c))) a
  = Ok (<[k := raster h w a]> mask,
        Np.tabulate h w (λ r c, Z.b2z (gb r c || segmentation a r c))).
Proof.
  intros Hi Hk. unfold paint.
  rewrite decide_True by (apply elem_of_dom; eauto).
  unfold getitem. rewrite Hi, bind_Ok. cbn [fst snd].
  unfold Np.set_channel. rewrite Hk, bind_Ok.
  unfold raster, Np.bitwise_or.
  rewrite broadcast_to_tabulate, !bind_Ok, map2_tabulate, !bind_Ok.
  do 2 f_equal. apply tabulate_ext. intros r c _ _.
  by destruct (gb r c), (segmentation a r c).
Qed.

Lemma paint_step_invalid (m : gmap Z Z) h w mask bg a i :
  m !! category_id a = Some i →
  Np.index (length mask) i = Raise IndexError →
  paint m h w (mask, bg) a = Raise IndexError.
Proof.
  intros Hi Hk. unfold paint.
  rewrite decide_True by (apply elem_of_dom; eauto).
  unfold getitem. rewrite Hi, bind_Ok. cbn [fst snd].
  unfold Np.set_channel. by rewrite Hk.
Qed.

(** The loop of [load_mask] from a state of the expected shape: it runs to
    its end when every channel written to exists, and raises IndexError
    otherwise. The background accumulator collects the annotations in
    scope. *)
Lemma paint_run (m : gmap Z Z) h w l :
  ∀ mask (gb : nat → nat → bool),
    length mask = size m →
    Forall (binary_plane h w) mask →
    (Forall (valid_channel m) l →
     ∃ mask' (gb' : nat → nat → bool),
       for_each (paint m h w) l (mask, Np.tabulate h w (λ r c, Z.b2z (gb r c)))
       = Ok (mask', Np.tabulate h w (λ r c, Z.b2z (gb' r c)))
       ∧ length mask' = size m
       ∧ Forall (binary_plane h w) mask'
       ∧ ∀ r c, gb' r c = gb r c || covered (filter (in_scope m) l) r c)
    ∧ (Exists (λ a, ¬ valid_channel m a) l →
       for_each (paint m h w) l (mask, Np.tabulate h w (λ r c, Z.b2z (gb r c)))
       = Raise IndexError).
Proof.
  induction l as [|a l IH]; intros mask gb Hlen Hbin.
  - split.
    + intros _. exists mask, gb. repeat split; [done..|].
      intros r c. simpl. by rewrite orb_false_r.
    + by intros ?%Exists_nil.
  - simpl. destruct (m !! category_id a) as [i|] eqn:Hi.
    + destruct (decide (- Z.of_nat (size m) ≤ i < Z.of_nat (size m))) as [Hv|Hv].
      * destruct (index_valid (length mask) i) as (k & Hk & Hlt); [by rewrite Hlen|].
        rewrite (paint_step_valid m h w mask gb a i k) by done.
        destruct (IH (<[k := raster h w a]> mask)
                    (λ r c, gb r c || segmentation a r c)) as [IHok IHerr].
        { by rewrite length_insert. }
        { apply Forall_insert; [done|]. apply binary_plane_raster. }
        split.
        -- intros [_ Hl]%Forall_cons.
           destruct (IHok Hl) as (mask' & gb' & -> & Hlen' & Hbin' & Hgb').
           exists mask', gb'. repeat split; [done..|].
           intros r c. rewrite Hgb'.
           rewrite filter_cons, decide_True by (apply elem_of_dom; eauto).
           simpl. by rewrite orb_assoc.
        -- intros [Ha|Hl]%Exists_cons.
           ++ exfalso. apply Ha. unfold valid_channel. by rewrite Hi.
           ++ by apply IHerr.
      * rewrite (paint_step_invalid m h w mask _ a i);
          [|done|by apply index_invalid; rewrite Hlen].
        split; [|done].
        intros [Ha _]%Forall_cons. exfalso. apply Hv.
        unfold valid_channel in Ha. by rewrite Hi in Ha.
    + rewrite paint_out_of_scope by (unfold in_scope; by apply not_elem_of_dom).
      destruct (IH mask gb Hlen Hbin) as [IHok IHerr]. split.
      * intros [_ Hl]%Forall_cons.
        destruct (IHok Hl) as (mask' & gb' & -> & Hlen' & Hbin' & Hgb').
        exists mask', gb'. repeat split; [done..|].
        intros r c. rewrite Hgb'.
        by rewrite filter_cons, decide_False by (by apply not_elem_of_dom).
      * intros [Ha|Hl]%Exists_cons.
        -- exfalso. apply Ha. unfold valid_channel. by rewrite Hi.
        -- by apply IHerr.
Qed.

Lemma load_mask_outcome coco img_id img (m : gmap Z Z) :
  NoDup (ann_id <$> annotations coco) →
  imgs coco img_id = Ok img →
  (size m ≠ 0%nat →
   Forall (valid_channel m) (imgToAnns coco img_id) →
   ∃ mask,
     load_mask coco img_id m = Ok mask
     ∧ length mask = size m
     ∧ Forall (binary_plane (height img) (width img)) mask
     ∧ mask !! 0%nat
       = Some (Np.tabulate (height img) (width img)
                 (λ r c, Z.b2z (negb (covered (filter (in_scope m)
                                                 (imgToAnns coco img_id)) r c)))))
  ∧ (size m = 0%nat ∨ Exists (λ a, ¬ valid_channel m a) (imgToAnns coco img_id) →
     load_mask coco img_id m = Raise IndexError).
Proof.
  intros Hnd Himg.
  rewrite (load_mask_fold coco img_id img m Hnd Himg).
  destruct (paint_run m (height img) (width img) (imgToAnns coco img_id)
              (replicate (size m) (Np.zeros (height img) (width img)))
              (λ _ _, false)) as [Hok Herr].
  { by rewrite length_replicate. }
  { apply Forall_replicate, binary_plane_zeros. }
  change (Np.tabulate (height img) (width img) (λ _ _, Z.b2z false))
    with (Np.zeros (height img) (width img)) in Hok, Herr.
  assert (∀ mask' (gb' : nat → nat → bool),
            length mask' = size m → size m ≠ 0%nat →
            Np.set_channel (height img) (width img) mask' 0
              (Np.logical_not
                 (Np.tabulate (height img) (width img) (λ r c, Z.b2z (gb' r c))))
            = Ok (<[0%nat := Np.tabulate (height img) (width img)
                               (λ r c, Z.b2z (negb (gb' r c)))]> mask')) as Hfinal.
  { intros mask' gb' Hlen Hsize. rewrite set_background by lia.
    do 2 f_equal. apply tabulate_ext. intros r c _ _. by destruct (gb' r c). }
  split.
  - intros Hsize Hvalid.
    destruct (Hok Hvalid) as (mask' & gb' & -> & Hlen & Hbin & Hgb).
    rewrite bind_Ok. cbn [fst snd]. rewrite Hfinal by done.
    eexists. split; [done|]. split; [by rewrite length_insert|]. split.
    + apply Forall_insert; [done|]. by exists (λ r c, negb (gb' r c)).
    + rewrite list_lookup_insert_eq by lia. f_equal.
      apply tabulate_ext. intros r c _ _. by rewrite Hgb.
  - intros [Hsize|Hinvalid].
    + destruct Hok as (mask' & gb' & -> & Hlen & _).
      { apply Forall_forall. intros a _. unfold valid_channel.
        apply map_size_empty_iff in Hsize. by rewrite Hsize, lookup_empty. }
      rewrite bind_Ok. cbn [fst snd].
      unfold Np.set_channel. rewrite index_invalid; [done|]. lia.
    + by rewrite Herr.
Qed.

(** X1: for an image of the store, [load_mask] raises IndexError exactly
    when the channel map is empty or an annotation of the image is mapped to
    a channel index outside [-n, n), n being the number of entries of the
    map. *)
Theorem load_mask_IndexError_iff coco img_id img (m : gmap Z Z) :
  NoDup (ann_id <$> annotations coco) →
  imgs coco img_id = Ok img →
  load_mask coco img_id m = Raise IndexError
  ↔ size m = 0%nat ∨ Exists (λ a, ¬ valid_channel m a) (imgToAnns coco img_id).
Proof.
  intros Hnd Himg.
  destruct (load_mask_outcome coco img_id img m Hnd Himg) as [Hok Herr].
  split; [|done].
  intros Hraise.
  destruct (decide (size m = 0%nat)) as [|Hsize]; [by left|]. right.
  destruct (decide (Exists (λ a, ¬ valid_channel m a) (imgToAnns coco img_id)))
    as [|Hall]; [done|].
  apply not_Exists_Forall in Hall; [|apply _].
  destruct Hok as (mask & Hmask & _); [done| |congruence].
  eapply Forall_impl; [exact Hall|]. simpl. intros a Ha.
  by destruct (decide (valid_channel m a)).
Qed.

Lemma load_mask_IndexError_iff_witness :
  load_mask demo_store 1 short_map = Raise IndexError
  ↔ size short_map = 0%nat
    ∨ Exists (λ a, ¬ valid_channel short_map a) (imgToAnns demo_store 1).
Proof.
  apply (load_mask_IndexError_iff demo_store 1 (mk_image 1 "a.png" 1 2) short_map).
  - decide_by_evaluation.
  - reflexivity.
Defined.

Example load_mask_short_map :
  load_mask demo_store 1 short_map = Raise IndexError.
Proof. by vm_compute. Qed.

(** X2: when every channel written to exists, [load_mask] returns one plane
    per entry of the channel map, each of the native size of the image and
    with entries 0 or 1. *)
Theorem load_mask_planes coco img_id img (m : gmap Z Z) :
  NoDup (ann_id <$> annotations coco) →
  imgs coco img_id = Ok img →
  size m ≠ 0%nat →
  Forall (valid_channel m) (imgToAnns coco img_id) →
  ∃ mask,
    load_mask coco img_id m = Ok mask
    ∧ length mask = size m
    ∧ Forall (binary_plane (height img) (width img)) mask.
Proof.
  intros Hnd Himg Hsize Hvalid.
  destruct (load_mask_outcome coco img_id img m Hnd Himg) as [Hok _].
  destruct (Hok Hsize Hvalid) as (mask & ? & ? & ? & _). by exists mask.
Qed.

Lemma load_mask_planes_witness :
  ∃ mask,
    load_mask demo_store 1 rice_map = Ok mask
    ∧ length mask = size rice_map
    ∧ Forall (binary_plane 1 2) mask.
Proof.
  apply (load_mask_planes demo_store 1 (mk_image 1 "a.png" 1 2) rice_map).
  - decide_by_evaluation.
  - reflexivity.
  - by vm_compute.
  - decide_by_evaluation.
Defined.

(** X3: the background channel [load_mask] returns is 0 exactly on the
    pixels covered by an annotation of the image whose category is a key of
    the map, and 1 elsewhere, whatever the other channels hold. *)
Theorem load_mask_background coco img_id img (m : gmap Z Z) :
  NoDup (ann_id <$> annotations coco) →
  imgs coco img_id = Ok img →
  size m ≠ 0%nat →
  Forall (valid_channel m) (imgToAnns coco img_id) →
  ∃ mask ch0,
    load_mask coco img_id m = Ok mask
    ∧ mask !! 0%nat = Some ch0
    ∧ Np.shape ch0 = (height img, width img)
    ∧ ∀ r c, (r < height img)%nat → (c < width img)%nat →
        Np.item ch0 r c
        = if covered (filter (in_scope m) (imgToAnns coco img_id)) r c
          then 0 else 1.
Proof.
  intros Hnd Himg Hsize Hvalid.
  destruct (load_mask_outcome coco img_id img m Hnd Himg) as [Hok _].
  destruct (Hok Hsize Hvalid) as (mask & Hmask & _ & _ & Hch0).
  eexists _, _. split; [done|]. split; [done|]. split; [done|].
  intros r c Hr Hc. rewrite item_tabulate by done.
  by destruct (covered _ r c).
Qed.

Lemma load_mask_background_witness :
  ∃ mask ch0,
    load_mask demo_store 1 rice_map = Ok mask
    ∧ mask !! 0%nat = Some ch0
    ∧ Np.shape ch0 = (1%nat, 2%nat)
    ∧ ∀ r c, (r < 1)%nat → (c < 2)%nat →
        Np.item ch0 r c
        = if covered (filter (in_scope rice_map) (imgToAnns demo_store 1)) r c
          then 0 else 1.
Proof.
  apply (load_mask_background demo_store 1 (mk_image 1 "a.png" 1 2) rice_map).
  - decide_by_evaluation.
  - reflexivity.
  - by vm_compute.
  - decide_by_evaluation.
Defined.

End load_mask_outcome.

(** ** The instance stacks *)

Section instance_stacks.

Import Coco ExtractSegmentations.

Lemma as_uint8_raster h w a : Np.as_uint8 (raster h w a) = raster h w a.
Proof.
  unfold Np.as_uint8, raster. rewrite map1_tabulate.
  apply tabulate_ext. intros r c _ _. by destruct (segmentation a r c).
Qed.

(** The stack of an image: one layer per annotation of the image, in the
    order of the annotation query, beside the category ids. *)
Lemma loadMask_stack self imgId img :
  NoDup (ann_id <$> annotations (coco self)) →
  imgs (coco self) imgId = Ok img →
  loadMask self imgId
  = Ok (raster (height img) (width img) <$> imgToAnns (coco self) imgId,
        category_id <$> imgToAnns (coco self) imgId).
Proof.
  intros Hnd Himg. unfold loadMask, loadImgs. rewrite Himg, !bind_Ok.
  cbn [head_exn from_option_exn head]. rewrite bind_Ok.
  unfold getAnnIds, range. rewrite length_fmap.
  set (l := imgToAnns (coco self) imgId).
  set (h := height img). set (w := width img).
  set (body := λ '(mask, class_ids) '(i, ann),
         ann ← loadAnns (coco self) ann ≫= head_exn;
         m ← annToMask (coco self) ann;
         mask ← Np.set_channel h w mask i (Np.as_uint8 m);
         Ok (mask, class_ids ++ [category_id ann])).
  assert (∀ k, (k ≤ length l)%nat →
            for_each body (zip (Z.of_nat <$> seq 0 k) (take k (ann_id <$> l)))
              (replicate (length l) (Np.zeros h w), [])
            = Ok ((raster h w <$> take k l)
                    ++ replicate (length l - k) (Np.zeros h w),
                  category_id <$> take k l)) as Hgen.
  { induction k as [|k IH]; intros Hk.
    - simpl. by rewrite Nat.sub_0_r.
    - destruct (lookup_lt_is_Some_2 l k) as [a Ha]; [lia|].
      assert ((ann_id <$> l) !! k = Some (ann_id a)) as Hid.
      { by rewrite list_lookup_fmap, Ha. }
      rewrite seq_S, fmap_app, (take_S_r _ _ _ Hid).
      rewrite zip_with_app
        by (rewrite length_fmap, length_seq, length_take_le;
            rewrite ?length_fmap; lia).
      rewrite for_each_app, IH by lia. rewrite bind_Ok. simpl.
      assert (a ∈ l) as Hin by (by eapply list_elem_of_lookup_2).
      apply elem_of_imgToAnns in Hin as [Haimg Hain].
      rewrite loadAnns_unique by done. rewrite bind_Ok.
      rewrite (annToMask_raster (coco self) imgId img) by done.
      rewrite bind_Ok, as_uint8_raster.
      unfold Np.set_channel, Np.index.
      rewrite decide_True.
      2:{ rewrite length_app, length_fmap, length_take_le, length_replicate by lia.
          lia. }
      rewrite bind_Ok, Nat2Z.id.
      unfold raster at 2. rewrite broadcast_to_tabulate, bind_Ok.
      fold (raster h w a).
      rewrite (take_S_r l k a Ha), !fmap_app. simpl.
      replace (length l - k)%nat with (S (length l - S k)) by lia.
      rewrite replicate_S, <- app_assoc. simpl.
      rewrite insert_app_r_alt by (rewrite length_fmap, length_take_le; lia).
      by rewrite length_fmap, length_take_le, Nat.sub_diag by lia. }
  specialize (Hgen (length l) (Nat.le_refl _)).
  rewrite !take_ge, Nat.sub_diag, app_nil_r in Hgen
    by (rewrite ?length_fmap; lia).
  exact Hgen.
Qed.

Lemma comprehension_total {A B} (f : A → result B) (g : A → B) l :
  (∀ a, a ∈ l → f a = Ok (g a)) → comprehension f l = Ok (g <$> l).
Proof.
  induction l as [|a l IH]; intros Hfg; simpl; [done|].
  rewrite (Hfg a) by left. rewrite IH; [done|].
  intros a' Ha'. apply Hfg. by right.
Qed.

(** X4: [loadMask] returns one layer per annotation of the image and as
    many class ids: the k-th layer is the rasterization of the k-th
    annotation returned by the annotation query, and the k-th class id its
    category, whatever the categories are. *)
Theorem loadMask_instances self imgId img :
  NoDup (ann_id <$> annotations (coco self)) →
  imgs (coco self) imgId = Ok img →
  ∃ stack class_ids,
    loadMask self imgId = Ok (stack, class_ids)
    ∧ length stack = length (getAnnIds (coco self) imgId)
    ∧ length class_ids = length (getAnnIds (coco self) imgId)
    ∧ ∀ (k : nat) a,
        imgToAnns (coco self) imgId !! k = Some a →
        ∃ r, annToMask (coco self) a = Ok r
             ∧ stack !! k = Some r
             ∧ class_ids !! k = Some (category_id a).
Proof.
  intros Hnd Himg. rewrite (loadMask_stack self imgId img Hnd Himg).
  eexists _, _. split; [done|]. unfold getAnnIds.
  rewrite !length_fmap. repeat split.
  intros k a Ha. exists (raster (height img) (width img) a).
  rewrite !list_lookup_fmap, Ha. repeat split.
  apply (annToMask_raster (coco self) imgId img Himg).
  apply list_elem_of_lookup_2 in Ha. by apply elem_of_imgToAnns in Ha as [? _].
Qed.

Lemma loadMask_instances_witness :
  ∃ stack class_ids,
    loadMask (init "d/" "/images/" "annotations.json" "masks/" demo_store) 1
    = Ok (stack, class_ids)
    ∧ length stack = length (getAnnIds demo_store 1)
    ∧ length class_ids = length (getAnnIds demo_store 1)
    ∧ ∀ (k : nat) a,
        imgToAnns demo_store 1 !! k = Some a →
        ∃ r, annToMask demo_store a = Ok r
             ∧ stack !! k = Some r
             ∧ class_ids !! k = Some (category_id a).
Proof.
  apply (loadMask_instances
           (init "d/" "/images/" "annotations.json" "masks/" demo_store) 1
           (mk_image 1 "a.png" 1 2)).
  - decide_by_evaluation.
  - reflexivity.
Defined.

Example loadMask_demo :
  loadMask (init "d/" "/images/" "annotations.json" "masks/" demo_store) 1
  = Ok ([ Np.mk_ndarray 1 2 [[1; 0]]; Np.mk_ndarray 1 2 [[0; 1]];
          Np.mk_ndarray 1 2 [[1; 0]] ],
        [5; 5; 9]).
Proof. by vm_compute. Qed.

Lemma getMultiChannelMasks_result self :
  NoDup (ann_id <$> annotations (coco self)) →
  ∃ imgs',
    loadImgs_list (coco self) (getImgIds (coco self) [] []) = Ok imgs'
    ∧ Forall (λ img, imgs (coco self) (img_id img) = Ok img) imgs'
    ∧ getMultiChannelMasks self
      = Ok ((λ img,
               (raster (height img) (width img)
                  <$> imgToAnns (coco self) (img_id img),
                category_id <$> imgToAnns (coco self) (img_id img)))
              <$> imgs').
Proof.
  intros Hnd.
  destruct (loadImgs_all (coco self)) as (imgs' & Himgs & Hall).
  exists imgs'. split; [done|]. split; [done|].
  unfold getMultiChannelMasks. rewrite Himgs, bind_Ok.
  apply comprehension_total. intros img Himg.
  rewrite Forall_forall in Hall. by apply loadMask_stack, Hall.
Qed.

(** X5: [getMultiChannelMasks] returns, for every image of the store and
    in the order of the image query, the instance stack and the class ids
    [loadMask] gives for that image. *)
Theorem getMultiChannelMasks_per_image self :
  NoDup (ann_id <$> annotations (coco self)) →
  ∃ imgs' stacks,
    loadImgs_list (coco self) (getImgIds (coco self) [] []) = Ok imgs'
    ∧ getMultiChannelMasks self = Ok stacks
    ∧ Forall2 (λ img s, loadMask self (img_id img) = Ok s) imgs' stacks.
Proof.
  intros Hnd.
  destruct (getMultiChannelMasks_result self Hnd) as (imgs' & Himgs & Hall & Hres).
  eexists imgs', _. split; [done|]. split; [done|].
  apply Forall2_fmap_r, Forall_Forall2_diag.
  eapply Forall_impl; [exact Hall|]. simpl. intros img Himg.
  by apply loadMask_stack.
Qed.

Lemma getMultiChannelMasks_per_image_witness :
  ∃ imgs' stacks,
    loadImgs_list demo_store (getImgIds demo_store [] []) = Ok imgs'
    ∧ getMultiChannelMasks
        (init "d/" "/images/" "annotations.json" "masks/" demo_store)
      = Ok stacks
    ∧ Forall2
        (λ img s,
           loadMask (init "d/" "/images/" "annotations.json" "masks/" demo_store)
             (img_id img) = Ok s)
        imgs' stacks.
Proof.
  apply (getMultiChannelMasks_per_image
           (init "d/" "/images/" "annotations.json" "masks/" demo_store)).
  decide_by_evaluation.
Defined.

Lemma union_at_rasters h w l r c :
  (r < h)%nat → (c < w)%nat →
  union_at (raster h w <$> l) r c = Z.b2z (covered l r c).
Proof.
  intros Hr Hc. induction l as [|a l IH]; [done|].
  rewrite fmap_cons, union_at_cons, IH.
  unfold raster. rewrite item_tabulate by done. simpl.
  by destruct (segmentation a r c), (covered l r c).
Qed.

(** X6: the binary mask [extractBinaryMasks] gives for an image is the
    union of the layers of the instance stack [getMultiChannelMasks] gives
    for it: at every pixel, the maximum of the layers. *)
Theorem binary_mask_is_union_of_instances self :
  NoDup (ann_id <$> annotations (coco self)) →
  ∃ stacks masks files,
    getMultiChannelMasks self = Ok stacks
    ∧ extractBinaryMasks self = Ok (masks, files)
    ∧ Forall2
        (λ (s : list Np.ndarray * list Z) bm,
           ∀ r c, (r < Np.nrows bm)%nat → (c < Np.ncols bm)%nat →
                  Np.item bm r c = union_at s.1 r c)
        stacks masks.
Proof.
  intros Hnd.
  destruct (getMultiChannelMasks_result self Hnd) as (imgs' & Himgs & Hall & Hres).
  rewrite Hres. unfold extractBinaryMasks.
  rewrite Himgs, bind_Ok, collect_masks.
  rewrite (comprehension_total (binary_mask self)
             (λ img, Np.tabulate (height img) (width img)
                       (λ r c, Z.b2z (covered (imgToAnns (coco self) (img_id img)) r c)))).
  2:{ intros img Himg. rewrite Forall_forall in Hall.
      by apply binary_mask_covered, Hall. }
  rewrite bind_Ok. eexists _, _, _. split; [done|]. split; [done|].
  apply Forall2_fmap, Forall_Forall2_diag, Forall_forall.
  intros img _ r c Hr Hc. simpl in *.
  rewrite item_tabulate by done. by rewrite union_at_rasters.
Qed.

Lemma binary_mask_is_union_of_instances_witness :
  ∃ stacks masks files,
    getMultiChannelMasks
      (init "d/" "/images/" "annotations.json" "masks/" demo_store)
    = Ok stacks
    ∧ extractBinaryMasks
        (init "d/" "/images/" "annotations.json" "masks/" demo_store)
      = Ok (masks, files)
    ∧ Forall2
        (λ (s : list Np.ndarray * list Z) bm,
           ∀ r c, (r < Np.nrows bm)%nat → (c < Np.ncols bm)%nat →
                  Np.item bm r c = union_at s.1 r c)
        stacks masks.
Proof.
  apply (binary_mask_is_union_of_instances
           (init "d/" "/images/" "annotations.json" "masks/" demo_store)).
  decide_by_evaluation.
Defined.

End instance_stacks.

(** ** The outcome of the mask extraction *)

Section extraction_outcome.

Import Coco ExtractSegmentations.

(** The records the extraction loops go through: one per image id of the
    store, in the order the ids first occur. *)
Lemma loadImgs_all_ids coco :
  ∃ imgs', loadImgs_list coco (getImgIds coco [] []) = Ok imgs'
           ∧ Forall (λ img, imgs coco (img_id img) = Ok img) imgs'
           ∧ img_id <$> imgs' = dict_keys (img_id <$> images coco).
Proof.
  unfold loadImgs_list, getImgIds.
  destruct (comprehension_Ok (imgs coco) (dict_keys (img_id <$> images coco)))
    as (imgs' & Himgs & Hall).
  { intros i Hi. apply (proj1 (elem_of_dict_keys _ _)) in Hi.
    unfold imgs. by apply dict_lookup_elem. }
  exists imgs'. split; [done|].
  clear Himgs. induction Hall as [|i img ids imgs' Hi _ [IH1 IH2]].
  - by split.
  - destruct (dict_lookup_Ok _ _ _ _ Hi) as [_ <-]. split.
    + by constructor.
    + rewrite fmap_cons. by f_equal.
Qed.

(** An image the loops go through is an image of the store. *)
Lemma listed_image coco imgs' img :
  img_id <$> imgs' = dict_keys (img_id <$> images coco) →
  img ∈ imgs' → img_id img ∈ img_id <$> images coco.
Proof.
  intros Hids Himg. apply elem_of_dict_keys. rewrite <- Hids.
  by apply list_elem_of_fmap_2.
Qed.

Lemma extractBinaryMasks_result self :
  NoDup (ann_id <$> annotations (coco self)) →
  ∃ imgs',
    loadImgs_list (coco self) (getImgIds (coco self) [] []) = Ok imgs'
    ∧ img_id <$> imgs' = dict_keys (img_id <$> images (coco self))
    ∧ extractBinaryMasks self
      = Ok ((λ img, Np.tabulate (height img) (width img)
                      (λ r c, Z.b2z (covered (imgToAnns (coco self) (img_id img)) r c)))
              <$> imgs',
            zip (mask_file self <$> imgs')
              ((λ img, Np.tabulate (height img) (width img)
                         (λ r c, Z.b2z (covered (imgToAnns (coco self) (img_id img)) r c)))
                 <$> imgs')).
Proof.
  intros Hnd.
  destruct (loadImgs_all_ids (coco self)) as (imgs' & Himgs & Hall & Hids).
  exists imgs'. split; [done|]. split; [done|].
  unfold extractBinaryMasks. rewrite Himgs, bind_Ok, collect_masks.
  rewrite (comprehension_total (binary_mask self)
             (λ img, Np.tabulate (height img) (width img)
                       (λ r c, Z.b2z (covered (imgToAnns (coco self) (img_id img)) r c)))).
  - by rewrite bind_Ok.
  - intros img Himg. rewrite Forall_forall in Hall.
    by apply binary_mask_covered, Hall.
Qed.

Lemma extractMasks_result self :
  NoDup (ann_id <$> annotations (coco self)) →
  ∃ imgs',
    loadImgs_list (coco self) (getImgIds (coco self) [] []) = Ok imgs'
    ∧ img_id <$> imgs' = dict_keys (img_id <$> images (coco self))
    ∧ (Forall (λ a, image_id a ∈ img_id <$> images (coco self) → uint16_category a)
         (annotations (coco self)) →
       extractMasks self
       = Ok ((λ img, Np.tabulate (height img) (width img)
                       (label_value (imgToAnns (coco self) (img_id img))))
               <$> imgs',
             zip (mask_file self <$> imgs')
               ((λ img, Np.tabulate (height img) (width img)
                          (label_value (imgToAnns (coco self) (img_id img))))
                  <$> imgs'))).
Proof.
  intros Hnd.
  destruct (loadImgs_all_ids (coco self)) as (imgs' & Himgs & Hall & Hids).
  exists imgs'. split; [done|]. split; [done|].
  rewrite Forall_forall in Hall.
  unfold extractMasks. rewrite Himgs, bind_Ok, collect_masks.
  intros Hcat. rewrite Forall_forall in Hcat.
  rewrite (comprehension_total (label_mask self)
             (λ img, Np.tabulate (height img) (width img)
                       (label_value (imgToAnns (coco self) (img_id img))))).
  - by rewrite bind_Ok.
  - intros img Himg. apply label_mask_sum; [done|by apply Hall|].
    apply Forall_forall. intros a [Haimg Ha]%elem_of_imgToAnns.
    assert (uint16_category a) as Hu.
    { apply (Hcat a Ha). rewrite Haimg.
      by apply (listed_image (coco self) imgs'). }
    unfold uint16_category in Hu. unfold unsigned_category. lia.
Qed.

(** The category ids [extractMasks] accepts are no more than the unsigned
    ones: an annotation of an image of the store with another category id
    makes it raise. *)
Lemma label_mask_refused self img :
  NoDup (ann_id <$> annotations (coco self)) →
  imgs (coco self) (img_id img) = Ok img →
  Exists (λ a, ¬ unsigned_category a) (imgToAnns (coco self) (img_id img)) →
  label_mask self img = Raise TypeError.
Proof.
  intros Hnd Himg. unfold label_mask, getAnnIds. rewrite for_each_fmap.
  unfold Np.zeros.
  generalize (λ _ _ : nat, 0) as f.
  assert (Forall (λ a, a ∈ imgToAnns (coco self) (img_id img))
            (imgToAnns (coco self) (img_id img))) as Hin
    by (by apply Forall_forall).
  revert Hin. generalize (imgToAnns (coco self) (img_id img)) at 2 3 4 as l.
  induction l as [|a l IH]; intros Hin f Hbad.
  - by apply Exists_nil in Hbad.
  - apply Forall_cons in Hin as [Ha Hin].
    simpl. apply elem_of_imgToAnns in Ha as [Haimg Ha].
    rewrite loadAnns_unique by done. rewrite bind_Ok.
    rewrite (annToMask_raster (coco self) (img_id img) img) by done.
    rewrite bind_Ok. unfold Np.as_uint16, raster. rewrite map1_tabulate.
    destruct (decide (unsigned_category a)) as [Hcat|Hcat].
    + destruct (times_category_unsigned (height img) (width img)
                  (λ r c, Z.b2z (segmentation a r c) `mod` 65536)
                  (category_id a) Hcat) as (k & Hk & ->).
      rewrite bind_Ok.
      unfold iadd_uint16. cbn [Np.nrows Np.ncols Np.tabulate].
      rewrite broadcast_to_tabulate, bind_Ok, map2_tabulate.
      apply IH; [done|].
      by apply Exists_cons in Hbad as [Hbad|Hbad].
    + by rewrite times_category_refused.
Qed.

Lemma extractMasks_refused self :
  NoDup (ann_id <$> annotations (coco self)) →
  Exists (λ a, image_id a ∈ img_id <$> images (coco self) ∧ ¬ unsigned_category a)
    (annotations (coco self)) →
  extractMasks self = Raise TypeError.
Proof.
  intros Hnd (a & Ha & Hlisted & Hbad)%Exists_exists.
  destruct (loadImgs_all_ids (coco self)) as (imgs' & Himgs & Hall & Hids).
  rewrite Forall_forall in Hall.
  unfold extractMasks. rewrite Himgs, bind_Ok, collect_masks.
  assert (∃ img, img ∈ imgs' ∧ img_id img = image_id a) as (img & Himg & Hid).
  { apply elem_of_dict_keys in Hlisted. rewrite <- Hids in Hlisted.
    apply list_elem_of_fmap in Hlisted as (img & -> & Himg). by exists img. }
  rewrite (comprehension_Raise (label_mask self) TypeError); [done| |].
  - apply Forall_forall. intros img' Himg'.
    destruct (decide (Exists (λ a, ¬ unsigned_category a)
                        (imgToAnns (coco self) (img_id img')))) as [Hex|Hex].
    + left. apply label_mask_refused; [done|by apply Hall|done].
    + right. eexists. apply label_mask_sum; [done|by apply Hall|].
      apply not_Exists_Forall in Hex; [|apply _].
      eapply Forall_impl; [exact Hex|]. simpl. intros b Hb.
      by destruct (decide (unsigned_category b)).
  - apply Exists_exists. exists img. split; [done|].
    apply label_mask_refused; [done|by apply Hall|].
    apply Exists_exists. exists a. split; [|done].
    by apply elem_of_imgToAnns.
Qed.

(** A negative category id is refused. *)
Example extractMasks_negative_category :
  extractMasks
    (init "d/" "/images/" "annotations.json" "masks/"
       (with_annotation demo_store (mk_annotation 14 2 (-1) (pixel 1 1))))
  = Raise TypeError.
Proof. by vm_compute. Qed.

(** X7: [extractBinaryMasks] never raises on a store with unique annotation
    ids: for every image it returns the mask that is 1 exactly on the pixels
    covered by an annotation of the image, and writes each mask to the file
    named after its image under the masks directory. *)
Theorem extractBinaryMasks_covered self :
  NoDup (ann_id <$> annotations (coco self)) →
  ∃ imgs' masks files,
    loadImgs_list (coco self) (getImgIds (coco self) [] []) = Ok imgs'
    ∧ extractBinaryMasks self = Ok (masks, files)
    ∧ files = zip (mask_file self <$> imgs') masks
    ∧ Forall2
        (λ img mask,
           Np.shape mask = (height img, width img)
           ∧ ∀ r c, (r < height img)%nat → (c < width img)%nat →
               Np.item mask r c
               = if covered (imgToAnns (coco self) (img_id img)) r c
                 then 1 else 0)
        imgs' masks.
Proof.
  intros Hnd.
  destruct (extractBinaryMasks_result self Hnd) as (imgs' & Himgs & _ & ->).
  eexists imgs', _, _. split; [done|]. split; [done|]. split; [done|].
  apply Forall2_fmap_r, Forall_Forall2_diag, Forall_forall.
  intros img _. split; [done|]. intros r c Hr Hc.
  rewrite item_tabulate by done. by destruct (covered _ r c).
Qed.

Lemma extractBinaryMasks_covered_witness :
  ∃ imgs' masks files,
    loadImgs_list demo_store (getImgIds demo_store [] []) = Ok imgs'
    ∧ extractBinaryMasks
        (init "d/" "/images/" "annotations.json" "masks/" demo_store)
      = Ok (masks, files)
    ∧ files
      = zip (mask_file (init "d/" "/images/" "annotations.json" "masks/" demo_store)
               <$> imgs') masks
    ∧ Forall2
        (λ img mask,
           Np.shape mask = (height img, width img)
           ∧ ∀ r c, (r < height img)%nat → (c < width img)%nat →
               Np.item mask r c
               = if covered (imgToAnns demo_store (img_id img)) r c
                 then 1 else 0)
        imgs' masks.
Proof.
  apply (extractBinaryMasks_covered
           (init "d/" "/images/" "annotations.json" "masks/" demo_store)).
  decide_by_evaluation.
Defined.

(** X9: [extractMasks] and [extractBinaryMasks] write one file per image
    and to the same paths: the file of an image holds the mask of whichever
    of the two ran last. *)
Theorem extract_same_files self :
  NoDup (ann_id <$> annotations (coco self)) →
  Forall uint16_category (annotations (coco self)) →
  ∃ imgs' labels label_files binaries binary_files,
    loadImgs_list (coco self) (getImgIds (coco self) [] []) = Ok imgs'
    ∧ extractMasks self = Ok (labels, label_files)
    ∧ extractBinaryMasks self = Ok (binaries, binary_files)
    ∧ label_files.*1 = mask_file self <$> imgs'
    ∧ binary_files.*1 = mask_file self <$> imgs'
    ∧ label_files.*2 = labels
    ∧ binary_files.*2 = binaries.
Proof.
  intros Hnd Hcat.
  destruct (extractMasks_result self Hnd) as (imgs' & Himgs & _ & Hok).
  destruct (extractBinaryMasks_result self Hnd) as (imgs'' & Himgs' & _ & Hbin).
  rewrite Himgs in Himgs'. injection Himgs' as <-.
  rewrite Hok, Hbin.
  2:{ eapply Forall_impl; [exact Hcat|]. by intros a Ha _. }
  eexists imgs', _, _, _, _. split; [done|]. split; [done|]. split; [done|].
  repeat split.
  - apply fst_zip. by rewrite !length_fmap.
  - apply fst_zip. by rewrite !length_fmap.
  - apply snd_zip. by rewrite !length_fmap.
  - apply snd_zip. by rewrite !length_fmap.
Qed.

Lemma extract_same_files_witness :
  ∃ imgs' labels label_files binaries binary_files,
    loadImgs_list demo_store (getImgIds demo_store [] []) = Ok imgs'
    ∧ extractMasks (init "d/" "/images/" "annotations.json" "masks/" demo_store)
      = Ok (labels, label_files)
    ∧ extractBinaryMasks
        (init "d/" "/images/" "annotations.json" "masks/" demo_store)
      = Ok (binaries, binary_files)
    ∧ label_files.*1
      = mask_file (init "d/" "/images/" "annotations.json" "masks/" demo_store)
          <$> imgs'
    ∧ binary_files.*1
      = mask_file (init "d/" "/images/" "annotations.json" "masks/" demo_store)
          <$> imgs'
    ∧ label_files.*2 = labels
    ∧ binary_files.*2 = binaries.
Proof.
  apply (extract_same_files
           (init "d/" "/images/" "annotations.json" "masks/" demo_store)).
  - decide_by_evaluation.
  - decide_by_evaluation.
Defined.

Lemma label_value_uncovered l r c : covering l r c = [] → label_value l r c = 0.
Proof. intros Hc. unfold label_value. by rewrite Hc. Qed.

Lemma label_value_single l a r c :
  uint16_category a → covering l r c = [a] → label_value l r c = category_id a.
Proof.
  intros Ha Hc. unfold label_value. rewrite Hc. simpl.
  rewrite Z.add_0_r. by apply Z.mod_small.
Qed.

(** X10: in the label mask of an image a pixel that no annotation covers is
    0, and a pixel that exactly one annotation covers holds the category id
    of that annotation. *)
Theorem extractMasks_single_cover self :
  NoDup (ann_id <$> annotations (coco self)) →
  Forall uint16_category (annotations (coco self)) →
  ∃ imgs' masks files,
    loadImgs_list (coco self) (getImgIds (coco self) [] []) = Ok imgs'
    ∧ extractMasks self = Ok (masks, files)
    ∧ Forall2
        (λ img mask,
           ∀ r c, (r < height img)%nat → (c < width img)%nat →
             (covering (imgToAnns (coco self) (img_id img)) r c = [] →
              Np.item mask r c = 0)
             ∧ ∀ a, covering (imgToAnns (coco self) (img_id img)) r c = [a] →
                    Np.item mask r c = category_id a)
        imgs' masks.
Proof.
  intros Hnd Hcat.
  destruct (extractMasks_result self Hnd) as (imgs' & Himgs & _ & Hok).
  rewrite Hok.
  2:{ eapply Forall_impl; [exact Hcat|]. by intros a Ha _. }
  eexists imgs', _, _. split; [done|]. split; [done|].
  apply Forall2_fmap_r, Forall_Forall2_diag, Forall_forall.
  intros img _ r c Hr Hc. rewrite item_tabulate by done. split.
  - apply label_value_uncovered.
  - intros a Ha. apply label_value_single; [|done].
    rewrite Forall_forall in Hcat. apply Hcat.
    assert (a ∈ covering (imgToAnns (coco self) (img_id img)) r c) as Hin
      by (rewrite Ha; by left).
    apply list_elem_of_filter in Hin as [_ Hin].
    by apply elem_of_imgToAnns in Hin as [_ ?].
Qed.

Lemma extractMasks_single_cover_witness :
  ∃ imgs' masks files,
    loadImgs_list demo_store (getImgIds demo_store [] []) = Ok imgs'
    ∧ extractMasks (init "d/" "/images/" "annotations.json" "masks/" demo_store)
      = Ok (masks, files)
    ∧ Forall2
        (λ img mask,
           ∀ r c, (r < height img)%nat → (c < width img)%nat →
             (covering (imgToAnns demo_store (img_id img)) r c = [] →
              Np.item mask r c = 0)
             ∧ ∀ a, covering (imgToAnns demo_store (img_id img)) r c = [a] →
                    Np.item mask r c = category_id a)
        imgs' masks.
Proof.
  apply (extractMasks_single_cover
           (init "d/" "/images/" "annotations.json" "masks/" demo_store)).
  - decide_by_evaluation.
  - decide_by_evaluation.
Defined.

Lemma sum_list_Z_Permutation l1 l2 :
  l1 ≡ₚ l2 → sum_list_Z l1 = sum_list_Z l2.
Proof.
  unfold sum_list_Z. induction 1; simpl; lia.
Qed.

Lemma label_value_Permutation l1 l2 r c :
  l1 ≡ₚ l2 → label_value l1 r c = label_value l2 r c.
Proof.
  intros Hperm. unfold label_value, covering. f_equal.
  apply sum_list_Z_Permutation. by rewrite Hperm.
Qed.

Lemma covered_Permutation l1 l2 r c :
  l1 ≡ₚ l2 → covered l1 r c = covered l2 r c.
Proof.
  unfold covered. induction 1 as [|x l1 l2 _ IH|x y l|l1 l2 l3 _ IH1 _ IH2]; simpl.
  - done.
  - by rewrite IH.
  - by destruct (segmentation x r c), (segmentation y r c).
  - by rewrite IH1.
Qed.

(** X11: the order of the annotations in the annotation file changes
    neither the label masks nor the binary masks, for category ids that fit
    a uint16: sums and unions do not depend on the order, unlike the last
    write of [load_mask]. *)
Theorem extract_order_independent
    pathDir imgDir annotationFile masksDir store store' :
  NoDup (ann_id <$> annotations store) →
  Forall uint16_category (annotations store) →
  images store' = images store →
  annotations store' ≡ₚ annotations store →
  extractMasks (init pathDir imgDir annotationFile masksDir store')
  = extractMasks (init pathDir imgDir annotationFile masksDir store)
  ∧ extractBinaryMasks (init pathDir imgDir annotationFile masksDir store')
    = extractBinaryMasks (init pathDir imgDir annotationFile masksDir store).
Proof.
  intros Hnd Hcat Himages Hperm.
  set (self := init pathDir imgDir annotationFile masksDir store).
  set (self' := init pathDir imgDir annotationFile masksDir store').
  assert (NoDup (ann_id <$> annotations (coco self'))) as Hnd'.
  { simpl. by rewrite Hperm. }
  assert (∀ i, imgToAnns store' i ≡ₚ imgToAnns store i) as Hanns.
  { intros i. unfold imgToAnns. by rewrite Hperm. }
  destruct (extractMasks_result self Hnd) as (imgs1 & Himgs1 & _ & Hok).
  destruct (extractMasks_result self' Hnd') as (imgs2 & Himgs2 & _ & Hok').
  destruct (extractBinaryMasks_result self Hnd) as (imgs3 & Himgs3 & _ & ->).
  destruct (extractBinaryMasks_result self' Hnd') as (imgs4 & Himgs4 & _ & ->).
  assert (imgs2 = imgs1 ∧ imgs3 = imgs1 ∧ imgs4 = imgs1) as (-> & -> & ->).
  { change (coco self') with store' in *. change (coco self) with store in *.
    unfold loadImgs_list, getImgIds, imgs in *. rewrite Himages in *.
    repeat split; congruence. }
  change (coco self') with store' in *. change (coco self) with store in *.
  split.
  - assert (Forall (λ a, image_id a ∈ img_id <$> images store → uint16_category a)
              (annotations store)) as Hall.
    { eapply Forall_impl; [exact Hcat|]. by intros a Ha _. }
    rewrite Hok by done. rewrite Hok' by (rewrite Himages, Hperm; done).
    assert ((λ img, Np.tabulate (height img) (width img)
                      (label_value (imgToAnns store' (img_id img)))) <$> imgs1
            = (λ img, Np.tabulate (height img) (width img)
                        (label_value (imgToAnns store (img_id img)))) <$> imgs1)
      as ->; [|done].
    apply list_fmap_ext. intros _ img _. apply tabulate_ext.
    intros r c _ _. by apply label_value_Permutation.
  - assert ((λ img, Np.tabulate (height img) (width img)
                      (λ r c, Z.b2z (covered (imgToAnns store' (img_id img)) r c)))
              <$> imgs1
            = (λ img, Np.tabulate (height img) (width img)
                        (λ r c, Z.b2z (covered (imgToAnns store (img_id img)) r c)))
                <$> imgs1)
      as ->; [|done].
    apply list_fmap_ext. intros _ img _. apply tabulate_ext.
    intros r c _ _. f_equal. by apply covered_Permutation.
Qed.

Lemma extract_order_independent_witness :
  extractMasks
    (init "d/" "/images/" "annotations.json" "masks/" demo_store_reversed)
  = extractMasks (init "d/" "/images/" "annotations.json" "masks/" demo_store)
  ∧ extractBinaryMasks
      (init "d/" "/images/" "annotations.json" "masks/" demo_store_reversed)
    = extractBinaryMasks
        (init "d/" "/images/" "annotations.json" "masks/" demo_store).
Proof.
  apply (extract_order_independent "d/" "/images/" "annotations.json" "masks/"
           demo_store demo_store_reversed).
  - decide_by_evaluation.
  - decide_by_evaluation.
  - reflexivity.
  - apply reverse_Permutation.
Defined.

End extraction_outcome.

(** ** Colours as integers *)

Section pixel_codes.

Import ExtractSegmentations.

Lemma py_fmod_inject (k d : Z) :
  0 < d → (py_fmod (inject_Z k) d == inject_Z (k `mod` d))%Q.
Proof.
  intros Hd. unfold py_fmod.
  assert (Qfloor (inject_Z k / inject_Z d) = k `div` d) as ->.
  { destruct d as [|p|p]; try lia.
    unfold Qdiv, Qinv, Qmult, inject_Z. simpl.
    by rewrite Z.mul_1_r. }
  rewrite <- inject_Z_mult. unfold Qminus.
  rewrite <- inject_Z_opp, <- inject_Z_plus.
  apply inject_Z_injective. rewrite (Z.mod_eq k d) by lia. lia.
Qed.

Lemma py_fmod_comp x y d : (x == y)%Q → (py_fmod x d == py_fmod y d)%Q.
Proof.
  intros H. unfold py_fmod.
  assert (Qfloor (x / inject_Z d) = Qfloor (y / inject_Z d)) as ->.
  { apply Qfloor_comp. apply Qdiv_comp; [done|reflexivity]. }
  apply Qplus_comp; [done|reflexivity].
Qed.

Lemma Qtrunc_inject k : Qtrunc (inject_Z k) = k.
Proof.
  unfold Qtrunc. destruct (Qle_bool 0 (inject_Z k)).
  - apply Qfloor_Z.
  - apply Qceiling_Z.
Qed.

Lemma Qtrunc_comp x y : (x == y)%Q → Qtrunc x = Qtrunc y.
Proof.
  intros H. unfold Qtrunc.
  assert (Qle_bool 0 x = Qle_bool 0 y) as ->.
  { apply eq_true_iff_eq. rewrite !Qle_bool_iff. by rewrite H. }
  by rewrite (Qfloor_comp x y H), (Qceiling_comp x y H).
Qed.

(** X12: [intToRgb] undoes [rgbToInt]: a pixel of three integers between 0
    and 255 is packed into one integer below 2^24, from which [intToRgb]
    gives the three components back. *)
Theorem intToRgb_rgbToInt r g b :
  0 ≤ r < 256 → 0 ≤ g < 256 → 0 ≤ b < 256 →
  ∃ v, rgbToInt [r; g; b] = Ok v
       ∧ 0 ≤ v < 2 ^ 24
       ∧ intToRgb v = Some [r; g; b].
Proof.
  intros Hr Hg Hb. exists (256 ^ 2 * r + 256 * g + b).
  split; [done|].
  change (256 ^ 2) with 65536. change (2 ^ 24) with 16777216.
  split; [lia|]. unfold intToRgb.
  change (256 ^ 2) with 65536. change (2 ^ 53) with 9007199254740992.
  rewrite decide_True by lia.
  set (v := 65536 * r + 256 * g + b).
  assert (v `mod` 256 = b) as ->.
  { replace v with (b + (256 * r + g) * 256) by (unfold v; lia).
    rewrite Z_mod_plus_full. apply Z.mod_small. lia. }
  assert (v - b = 256 * (256 * r + g)) as -> by (unfold v; lia).
  assert (inject_Z (256 * (256 * r + g)) / inject_Z 256
          == inject_Z (256 * r + g))%Q as Hq.
  { rewrite inject_Z_mult. field. }
  assert (py_fmod (inject_Z (256 * (256 * r + g)) / inject_Z 256) 256
          == inject_Z g)%Q as Hgq.
  { eapply Qeq_trans; [apply (py_fmod_comp _ _ 256 Hq)|].
    eapply Qeq_trans; [apply py_fmod_inject; lia|].
    apply inject_Z_injective.
    replace (256 * r + g) with (g + r * 256) by lia.
    rewrite Z_mod_plus_full. apply Z.mod_small. lia. }
  assert (inject_Z (256 * (256 * r + g)) / inject_Z 65536
          - py_fmod (inject_Z (256 * (256 * r + g)) / inject_Z 256) 256
            / inject_Z 256
          == inject_Z r)%Q as Hrq.
  { eapply Qeq_trans.
    { apply Qplus_comp; [reflexivity|].
      apply Qopp_comp, Qdiv_comp; [exact Hgq|reflexivity]. }
    rewrite !inject_Z_mult, inject_Z_plus, inject_Z_mult.
    change (inject_Z 65536) with (inject_Z 256 * inject_Z 256)%Q. field. }
  unfold uint8_of_float.
  rewrite (Qtrunc_comp _ _ Hrq), (Qtrunc_comp _ _ Hgq), !Qtrunc_inject.
  rewrite !decide_True by lia. done.
Qed.

Lemma intToRgb_rgbToInt_witness :
  ∃ v, rgbToInt [3; 200; 17] = Ok v
       ∧ 0 ≤ v < 2 ^ 24
       ∧ intToRgb v = Some [3; 200; 17].
Proof. apply (intToRgb_rgbToInt 3 200 17); lia. Defined.

End pixel_codes.

(** ** The overlay of [show_mask] *)

Section overlay.

Import SegmentationUtils.

Lemma shown_class_bound chs r c v :
  shown_class chs r c v → 0 ≤ v ≤ Z.of_nat (length chs).
Proof.
  intros [[-> _]|(j & ch & Hj & _ & -> & _)]; [lia|].
  apply lookup_lt_Some in Hj. lia.
Qed.

(** One more channel: it takes the pixel if it holds it. *)
Lemma shown_class_snoc chs ch r c v :
  shown_class chs r c v →
  Np.item ch r c = 0 ∨ Np.item ch r c = 1 →
  shown_class (chs ++ [ch]) r c
    (if decide (Z.of_nat (length chs) + 1
                ≤ v + Np.item ch r c * (Z.of_nat (length chs) + 1))
     then Z.of_nat (length chs) + 1
     else v + Np.item ch r c * (Z.of_nat (length chs) + 1)).
Proof.
  intros Hv Hch. pose proof (shown_class_bound chs r c v Hv) as Hb.
  destruct Hch as [Hch|Hch]; rewrite Hch.
  - rewrite decide_False by lia. rewrite Z.mul_0_l, Z.add_0_r.
    destruct Hv as [[-> Hall]|(j & ch' & Hj & Hone & -> & Hall)].
    + left. split; [done|]. apply Forall_app. split; [done|].
      by apply Forall_singleton.
    + right. exists j, ch'.
      pose proof (lookup_lt_Some _ _ _ Hj) as Hlt.
      split; [by apply lookup_app_l_Some|]. split; [done|]. split; [done|].
      rewrite drop_app_le by lia. apply Forall_app. split; [done|].
      by apply Forall_singleton.
  - rewrite decide_True by lia.
    right. exists (length chs), ch.
    split; [by apply list_lookup_middle|]. split; [done|]. split; [done|].
    rewrite drop_ge; [done|]. rewrite length_app. simpl. lia.
Qed.

Lemma elem_of_tabulate_data h w f x :
  x ∈ mjoin (Np.data (Np.tabulate h w f)) →
  ∃ r c, (r < h)%nat ∧ (c < w)%nat ∧ x = f r c.
Proof.
  simpl. intros (row & Hx & Hrow)%list_elem_of_join.
  apply list_elem_of_fmap in Hrow as (r & -> & Hr%elem_of_seq).
  apply list_elem_of_fmap in Hx as (c & -> & Hc%elem_of_seq).
  exists r, c. repeat split; lia.
Qed.

(** X13: on a mask of planes of 0 and 1 with one class name per channel,
    [show_mask] draws at every pixel the last channel that holds the pixel:
    the overlay is 0 where no channel holds it and k + 1 where channel k is
    the last one that does; every value drawn has a label in the legend. *)
Theorem show_mask_overlay h w mask class_names :
  Forall (binary_plane h w) mask →
  length class_names = length mask →
  ∃ plot legend,
    show_mask h w mask class_names = Ok (plot, legend)
    ∧ Np.shape plot = (h, w)
    ∧ ∀ r c, (r < h)%nat → (c < w)%nat →
        shown_class mask r c (Np.item plot r c).
Proof.
  intros Hbin Hlen. unfold show_mask. rewrite Hlen. unfold range.
  set (body := λ (mask_plot : Np.ndarray) (i : Z),
         let k := i + 1 in
         ch ← Np.get_channel mask i;
         v ← Np.broadcast_to h w (Np.map1 (λ x, x * k) ch);
         mask_plot ← Np.map2 Z.add mask_plot v;
         Ok (Np.map1 (λ x, if decide (k ≤ x) then k else x) mask_plot)).
  assert (∀ k, (k ≤ length mask)%nat →
            ∃ f, for_each body (Z.of_nat <$> seq 0 k) (Np.zeros h w)
                 = Ok (Np.tabulate h w f)
                 ∧ ∀ r c, (r < h)%nat → (c < w)%nat →
                     shown_class (take k mask) r c (f r c)) as Hgen.
  { induction k as [|k IH]; intros Hk.
    - exists (λ _ _, 0). split; [done|]. intros r c _ _. left. by split.
    - destruct IH as (f & Hrun & Hf); [lia|].
      destruct (lookup_lt_is_Some_2 mask k) as [ch Hch]; [lia|].
      assert (binary_plane h w ch) as [g ->].
      { rewrite Forall_forall in Hbin. apply Hbin.
        by eapply list_elem_of_lookup_2. }
      rewrite seq_S, fmap_app, for_each_app, Hrun, bind_Ok. simpl.
      unfold body, Np.get_channel, Np.index.
      rewrite decide_True by lia. rewrite bind_Ok, Nat2Z.id, Hch. simpl.
      rewrite map1_tabulate, broadcast_to_tabulate, bind_Ok.
      rewrite map2_tabulate, bind_Ok, map1_tabulate.
      eexists. split; [done|]. intros r c Hr Hc. simpl.
      rewrite (take_S_r mask k _ Hch).
      pose proof (shown_class_snoc (take k mask)
                    (Np.tabulate h w (λ r c, Z.b2z (g r c))) r c (f r c)
                    (Hf r c Hr Hc)) as Hsnoc.
      rewrite item_tabulate, length_take_le in Hsnoc by (done || lia).
      apply Hsnoc. by destruct (g r c); [right|left]. }
  destruct (Hgen (length mask) (Nat.le_refl _)) as (f & -> & Hf).
  rewrite take_ge in Hf by done. rewrite bind_Ok.
  edestruct (comprehension_Ok
               (λ i : Z, from_option_exn IndexError
                           (("none"%string :: class_names) !! Z.to_nat i)))
    as (legend & -> & _).
  { intros v (x & -> & Hx)%list_elem_of_fmap.
    unfold np_unique in Hx. rewrite merge_sort_Permutation in Hx.
    apply elem_of_remove_dups, elem_of_tabulate_data in Hx
      as (r & c & Hr & Hc & ->).
    pose proof (shown_class_bound _ _ _ _ (Hf r c Hr Hc)) as Hb.
    destruct (lookup_lt_is_Some_2 ("none"%string :: class_names)
                (Z.to_nat (f r c `mod` 256))) as [lbl Hlbl].
    { simpl. rewrite Hlen.
      pose proof (Z.mod_pos_bound (f r c) 256 eq_refl).
      pose proof (Z.mod_le (f r c) 256). lia. }
    rewrite Hlbl. by eexists. }
  rewrite bind_Ok. eexists _, _. split; [done|]. split; [done|].
  intros r c Hr Hc. rewrite item_tabulate by done. by apply Hf.
Qed.

Lemma show_mask_overlay_witness :
  ∃ plot legend,
    show_mask 1 2 [Np.zeros 1 2; raster 1 2 (Coco.mk_annotation 11 1 5 (pixel 0 1))]
      ["background"; "rice"]%string
    = Ok (plot, legend)
    ∧ Np.shape plot = (1%nat, 2%nat)
    ∧ ∀ r c, (r < 1)%nat → (c < 2)%nat →
        shown_class
          [Np.zeros 1 2; raster 1 2 (Coco.mk_annotation 11 1 5 (pixel 0 1))]
          r c (Np.item plot r c).
Proof.
  apply (show_mask_overlay 1 2
           [Np.zeros 1 2; raster 1 2 (Coco.mk_annotation 11 1 5 (pixel 0 1))]
           ["background"; "rice"]%string).
  - repeat constructor.
    + apply binary_plane_zeros.
    + apply binary_plane_raster.
  - reflexivity.
Defined.

End overlay.

(** ** What the category index builder returns *)

Section index_builder_outcome.

Import Coco SegmentationUtils.

(** The file name of a selected image, as [load_imgs] reads it. *)
Lemma file_name_lookup coco i :
  (img ← loadImgs coco i ≫= head_exn; Ok (file_name img))
  = file_name <$> imgs coco i.
Proof. unfold loadImgs. by destruct (imgs coco i). Qed.

Lemma load_imgs_detail coco (class_names : list string) :
  Forall (λ a, image_id a ∈ img_id <$> images coco) (annotations coco) →
  ∃ img_names cs,
    Forall2 (λ id c, cats coco id = Ok c) (getCatIds coco (Some class_names)) cs
    ∧ Forall2 (λ i name, ∃ img, imgs coco i = Ok img ∧ name = file_name img)
        (elements (list_to_set
                     (mjoin ((λ id, getImgIds coco [] [id])
                               <$> getCatIds coco (Some class_names))) : gset Z))
        img_names
    ∧ load_imgs coco (Some class_names)
      = Ok (elements (list_to_set
                        (mjoin ((λ id, getImgIds coco [] [id])
                                  <$> getCatIds coco (Some class_names))) : gset Z),
            img_names, "background"%string :: (cat_name <$> cs),
            dict_of_pairs
              (zip (0 :: getCatIds coco (Some class_names))
                   (range (length (0 :: getCatIds coco (Some class_names)))))).
Proof.
  intros Hrefs. unfold load_imgs.
  set (cat_ids := getCatIds coco (Some class_names)).
  pose proof (getCatIds_sublist coco (Some class_names)) as Hsub.
  fold cat_ids in Hsub.
  destruct (comprehension_Ok (cats coco) cat_ids) as (cs & Hcs & Hcats).
  { intros c Hc. apply dict_lookup_elem.
    eapply elem_of_sublist; [exact Hc | exact Hsub]. }
  unfold loadCats. rewrite Hcs, bind_Ok.
  edestruct (comprehension_Ok
               (λ img_id, img ← loadImgs coco img_id ≫= head_exn; Ok (file_name img)))
    as (img_names & -> & Hnames).
  { intros i (a & Ha & <- & _)%elem_of_selected_images.
    rewrite Forall_forall in Hrefs.
    destruct (dict_lookup_elem img_id (images coco) (image_id a)) as [img Himg].
    { by apply Hrefs. }
    rewrite file_name_lookup. unfold imgs. rewrite Himg. by eexists. }
  rewrite bind_Ok. exists img_names, cs. split; [done|]. split.
  - eapply Forall2_impl; [exact Hnames|]. simpl. intros i name Hname.
    rewrite file_name_lookup in Hname.
    destruct (imgs coco i) as [img|]; [|done].
    injection Hname as <-. by exists img.
  - simpl length. rewrite length_fmap.
    by rewrite (comprehension_length _ _ _ Hcs).
Qed.

(** X14: [load_imgs] selects each image annotated with a resolved category
    once, and returns beside the image ids the file names of the same
    images, in the same order. *)
Theorem load_imgs_images coco (class_names : list string) :
  Forall (λ a, image_id a ∈ img_id <$> images coco) (annotations coco) →
  ∃ img_ids img_names names (m : gmap Z Z),
    load_imgs coco (Some class_names) = Ok (img_ids, img_names, names, m)
    ∧ NoDup img_ids
    ∧ (∀ i, i ∈ img_ids ↔
         ∃ a, a ∈ annotations coco ∧ image_id a = i
              ∧ category_id a ∈ getCatIds coco (Some class_names))
    ∧ Forall2 (λ i name, ∃ img, imgs coco i = Ok img ∧ name = file_name img)
        img_ids img_names.
Proof.
  intros Hrefs.
  destruct (load_imgs_detail coco class_names Hrefs) as (img_names & cs & _ & Hnames & ->).
  eexists _, _, _, _. split; [done|]. split; [apply NoDup_elements|].
  split; [|done]. intros i. apply elem_of_selected_images.
Qed.

Lemma load_imgs_images_witness :
  ∃ img_ids img_names names (m : gmap Z Z),
    load_imgs demo_store (Some ["rice"; "egg"]%string)
    = Ok (img_ids, img_names, names, m)
    ∧ NoDup img_ids
    ∧ (∀ i, i ∈ img_ids ↔
         ∃ a, a ∈ annotations demo_store ∧ image_id a = i
              ∧ category_id a ∈ getCatIds demo_store (Some ["rice"; "egg"]%string))
    ∧ Forall2 (λ i name, ∃ img, imgs demo_store i = Ok img ∧ name = file_name img)
        img_ids img_names.
Proof.
  apply (load_imgs_images demo_store ["rice"; "egg"]%string).
  decide_by_evaluation.
Defined.

(** X15: the class names and the channel index map [load_imgs] returns
    agree: the channel of a resolved category, looked up in the class names,
    gives the name of that category, and channel 0 gives "background". *)
Theorem load_imgs_names_aligned coco (class_names : list string) :
  NoDup (cat_id <$> categories coco) →
  0 ∉ cat_id <$> categories coco →
  Forall (λ a, image_id a ∈ img_id <$> images coco) (annotations coco) →
  ∃ img_ids img_names names (m : gmap Z Z),
    load_imgs coco (Some class_names) = Ok (img_ids, img_names, names, m)
    ∧ length names = size m
    ∧ names !! 0%nat = Some "background"%string
    ∧ ∀ c, c ∈ categories coco →
           cat_id c ∈ getCatIds coco (Some class_names) →
           ∃ i, m !! cat_id c = Some i
                ∧ 0 < i
                ∧ names !! Z.to_nat i = Some (cat_name c).
Proof.
  intros Hnd H0 Hrefs.
  destruct (load_imgs_detail coco class_names Hrefs) as (img_names & cs & Hcs & _ & ->).
  set (cat_ids := getCatIds coco (Some class_names)) in *.
  pose proof (getCatIds_sublist coco (Some class_names)) as Hsub.
  fold cat_ids in Hsub.
  assert (NoDup (0 :: cat_ids)) as Hkeys.
  { apply NoDup_cons. split.
    - intros Hin. apply H0. eapply elem_of_sublist; [exact Hin | exact Hsub].
    - eapply sublist_NoDup; [exact Hnd | exact Hsub]. }
  destruct (dict_zip_range (0 :: cat_ids) Hkeys) as [Hsize Hlookup].
  eexists _, _, _, _. split; [done|]. split.
  - rewrite Hsize. simpl. rewrite length_fmap.
    by rewrite <- (Forall2_length _ _ _ Hcs).
  - split; [done|]. intros c Hc Hsel.
    apply list_elem_of_lookup in Hsel as [k Hk].
    exists (Z.of_nat (S k)). split; [by apply Hlookup|]. split; [lia|].
    rewrite Nat2Z.id. simpl. rewrite list_lookup_fmap.
    destruct (Forall2_lookup_l _ _ _ _ _ Hcs Hk) as (c' & -> & Hc').
    simpl. f_equal. f_equal.
    unfold cats in Hc'. rewrite (dict_lookup_unique cat_id _ c Hnd Hc) in Hc'.
    by injection Hc' as <-.
Qed.

Lemma load_imgs_names_aligned_witness :
  ∃ img_ids img_names names (m : gmap Z Z),
    load_imgs demo_store (Some ["rice"; "egg"]%string)
    = Ok (img_ids, img_names, names, m)
    ∧ length names = size m
    ∧ names !! 0%nat = Some "background"%string
    ∧ ∀ c, c ∈ categories demo_store →
           cat_id c ∈ getCatIds demo_store (Some ["rice"; "egg"]%string) →
           ∃ i, m !! cat_id c = Some i
                ∧ 0 < i
                ∧ names !! Z.to_nat i = Some (cat_name c).
Proof.
  apply (load_imgs_names_aligned demo_store ["rice"; "egg"]%string).
  - decide_by_evaluation.
  - decide_by_evaluation.
  - decide_by_evaluation.
Defined.

(** X16: when an annotation of a resolved category refers to an image the
    store has no record of, [load_imgs] raises KeyError instead of leaving the
    image out. *)
Theorem load_imgs_dangling_image coco (class_names : list string) a :
  a ∈ annotations coco →
  category_id a ∈ getCatIds coco (Some class_names) →
  image_id a ∉ img_id <$> images coco →
  load_imgs coco (Some class_names) = Raise KeyError.
Proof.
  intros Ha Hcat Hmissing. unfold load_imgs.
  set (cat_ids := getCatIds coco (Some class_names)) in *.
  pose proof (getCatIds_sublist coco (Some class_names)) as Hsub.
  fold cat_ids in Hsub.
  destruct (loadCats_Ok coco cat_ids) as (cs & -> & _).
  { intros c Hc. eapply elem_of_sublist; [exact Hc | exact Hsub]. }
  rewrite bind_Ok.
  rewrite (comprehension_Raise _ KeyError); [done| |].
  - apply Forall_forall. intros i _. rewrite file_name_lookup.
    unfold imgs, dict_lookup.
    destruct (last (filter (λ x, img_id x = i) (images coco))); simpl; eauto.
  - apply Exists_exists. exists (image_id a). split.
    + apply elem_of_selected_images. by exists a.
    + rewrite file_name_lookup. unfold imgs, dict_lookup.
      rewrite filter_key_absent by done. done.
Qed.

Lemma load_imgs_dangling_image_witness :
  load_imgs demo_store_dangling (Some ["rice"]%string) = Raise KeyError.
Proof.
  apply (load_imgs_dangling_image demo_store_dangling ["rice"]%string
           (mk_annotation 14 3 5 (pixel 0 0))).
  - simpl. set_solver.
  - simpl. set_solver.
  - decide_by_evaluation.
Defined.

Lemma getCatIds_known coco (names : list string) :
  filter (λ n, n ∈ cat_name <$> categories coco) names ≠ [] →
  getCatIds coco (Some names)
  = getCatIds coco
      (Some (filter (λ n, n ∈ cat_name <$> categories coco) names)).
Proof.
  intros Hknown.
  destruct names as [|n names]; [done|].
  destruct (filter _ (n :: names)) as [|k known] eqn:Hfilter; [done|].
  unfold getCatIds. rewrite <- Hfilter. f_equal.
  apply filter_ext_elem. intros c Hc.
  rewrite list_elem_of_filter. split; [|tauto].
  intros Hn. split; [|done]. by apply list_elem_of_fmap_2.
Qed.

(** X17: a requested class name that no category of the store has is
    ignored, not reported: [load_imgs] gives the result of the selection
    without it, and when no requested name is known it returns no image and
    the background class alone (whereas the empty selection selects every
    category). *)
Theorem load_imgs_unknown_names coco (class_names : list string) :
  (filter (λ n, n ∈ cat_name <$> categories coco) class_names ≠ [] →
   load_imgs coco (Some class_names)
   = load_imgs coco
       (Some (filter (λ n, n ∈ cat_name <$> categories coco) class_names)))
  ∧ (class_names ≠ [] →
     filter (λ n, n ∈ cat_name <$> categories coco) class_names = [] →
     load_imgs coco (Some class_names)
     = Ok ([], [], ["background"%string], {[ 0 := 0 ]})).
Proof.
  split.
  - intros Hknown. unfold load_imgs. cbv beta match zeta.
    by rewrite (getCatIds_known coco class_names Hknown).
  - intros Hne Hnone. unfold load_imgs. cbv beta match zeta.
    assert (getCatIds coco (Some class_names) = []) as ->.
    { destruct class_names as [|n names]; [done|].
      unfold getCatIds. rewrite filter_none; [done|].
      apply Forall_forall. intros c Hc Hin.
      assert (cat_name c ∈ filter (λ n, n ∈ cat_name <$> categories coco) (n :: names))
        as Hcontra.
      { apply list_elem_of_filter. split; [|done]. by apply list_elem_of_fmap_2. }
      rewrite Hnone in Hcontra. by apply elem_of_nil in Hcontra. }
    done.
Qed.

Lemma load_imgs_unknown_names_witness :
  load_imgs demo_store (Some ["pizza"; "egg"]%string)
  = load_imgs demo_store (Some ["egg"]%string)
  ∧ load_imgs demo_store (Some ["pizza"]%string)
    = Ok ([], [], ["background"%string], {[ 0 := 0 ]}).
Proof.
  split.
  - apply (proj1 (load_imgs_unknown_names demo_store ["pizza"; "egg"]%string)).
    decide_by_evaluation.
  - apply (proj2 (load_imgs_unknown_names demo_store ["pizza"]%string)).
    + done.
    + by vm_compute.
Defined.

(** The entries of the class distribution. *)
Lemma get_class_dist_lookup coco (class_names : list string) c :
  get_class_dist coco (Some class_names) !! c
  = if decide (c ∈ getCatIds coco (Some class_names))
    then Some (size (list_to_set (catToImgs coco c) : gset Z))
    else if decide (c = 0)
    then Some (size (list_to_set
                       (mjoin ((λ id, getImgIds coco [] [id])
                                 <$> getCatIds coco (Some class_names))) : gset Z))
    else None.
Proof.
  unfold get_class_dist. cbv beta match zeta.
  set (cat_ids := getCatIds coco (Some class_names)).
  rewrite lookup_union, dict_of_pairs_graph.
  destruct (decide (c ∈ cat_ids)) as [Hc|Hc].
  - rewrite getImgIds_cat.
    by destruct ({[0 := _]} !! c).
  - destruct (decide (c = 0)) as [->|Hne].
    + by rewrite lookup_singleton_eq.
    + by rewrite lookup_singleton_ne.
Qed.

(** X18: in the class distribution no category counts more images than the
    background entry, which counts the images of all selected categories. *)
Theorem get_class_dist_bounded coco (class_names : list string) c n :
  0 ∉ cat_id <$> categories coco →
  get_class_dist coco (Some class_names) !! c = Some n →
  ∃ n0, get_class_dist coco (Some class_names) !! 0 = Some n0 ∧ (n ≤ n0)%nat.
Proof.
  intros H0 Hc.
  assert (0 ∉ getCatIds coco (Some class_names)) as H0'.
  { intros Hin. apply H0.
    eapply elem_of_sublist; [exact Hin | apply getCatIds_sublist]. }
  rewrite get_class_dist_lookup in Hc |- *.
  rewrite (decide_False (P := 0 ∈ _)) by done.
  rewrite (decide_True (P := 0 = 0)) by done.
  eexists. split; [done|].
  destruct (decide (c ∈ getCatIds coco (Some class_names))) as [Hsel|Hsel].
  - injection Hc as <-. apply subseteq_size.
    intros i Hi. apply elem_of_list_to_set in Hi.
    apply elem_of_list_to_set, list_elem_of_join.
    exists (getImgIds coco [] [c]). split.
    + by rewrite getImgIds_cat, elem_of_elements, elem_of_list_to_set.
    + apply list_elem_of_fmap. by exists c.
  - destruct (decide (c = 0)); [|done]. injection Hc as <-. done.
Qed.

Lemma get_class_dist_bounded_witness :
  ∃ n0, get_class_dist demo_store (Some []) !! 0 = Some n0 ∧ (1 ≤ n0)%nat.
Proof.
  apply (get_class_dist_bounded demo_store [] 5 1%nat).
  - decide_by_evaluation.
  - by vm_compute.
Defined.

End index_builder_outcome.

(** ** The dataset loader *)

Section dataset_loader_outcome.

Import Coco SegmentationUtils.

Lemma channel_index_map_valid_channel m a :
  channel_index_map m → valid_channel m a.
Proof.
  intros (_ & Hrange & _). unfold valid_channel.
  destruct (m !! category_id a) as [i|] eqn:Hi; [|done].
  specialize (Hrange _ _ Hi). simpl in Hrange. lia.
Qed.

Lemma comprehension_Forall2 {A B} (f : A → result B) (Q : A → B → Prop) l :
  (∀ a, a ∈ l → ∃ b, f a = Ok b ∧ Q a b) →
  ∃ bs, comprehension f l = Ok bs ∧ Forall2 Q l bs.
Proof.
  induction l as [|a l IH]; intros Hf; simpl.
  - exists []. by split.
  - destruct (Hf a) as (b & Hb & HQ); [by left|].
    destruct IH as (bs & Hbs & Hall).
    { intros a' Ha'. apply Hf. by right. }
    exists (b :: bs). rewrite Hb, Hbs. split; [done|]. by constructor.
Qed.

Lemma comprehension_Raise_or_Ok {A B} (f : A → result B) (e : exn) l :
  Forall (λ a, f a = Raise e ∨ ∃ b, f a = Ok b) l →
  comprehension f l = Raise e ∨ ∃ bs, comprehension f l = Ok bs.
Proof.
  induction l as [|a l IH]; intros Hall; simpl; [by right; eexists|].
  apply Forall_cons in Hall as [Ha Hall].
  destruct Ha as [->|[b ->]]; [by left|].
  destruct (IH Hall) as [->|[bs ->]]; [by left | by right; eexists].
Qed.

(** One image of X: the planes of the file, each resized. *)
Lemma load_img_planes fs path h w planes :
  (1 ≤ h)%nat → (1 ≤ w)%nat →
  fs path = Some planes → length planes = 3%nat →
  (img ← load_img fs path (h, w); set_image (h, w) img)
  = Ok (nearest_sample h w <$> planes).
Proof.
  intros Hh Hw Hfile Hlen. unfold load_img. rewrite Hfile.
  simpl from_option_exn. rewrite bind_Ok. simpl fst. simpl snd.
  rewrite (comprehension_total _ (nearest_sample h w)).
  2:{ intros a _. unfold Pil.resize. by rewrite decide_False by lia. }
  rewrite bind_Ok. unfold set_image.
  rewrite decide_True by (by rewrite length_fmap).
  simpl fst. simpl snd.
  rewrite (comprehension_total _ id); [by rewrite list_fmap_id|].
  intros a (p & -> & _)%list_elem_of_fmap.
  apply broadcast_to_tabulate.
Qed.

Lemma load_img_outcome fs path h w planes :
  fs path = Some planes → length planes = 3%nat →
  (img ← load_img fs path (h, w); set_image (h, w) img) = Raise ValueError
  ∨ ∃ x, (img ← load_img fs path (h, w); set_image (h, w) img) = Ok x.
Proof.
  intros Hfile Hlen.
  destruct (decide (h < 1 ∨ w < 1)%nat) as [Hbad|Hgood].
  - left. unfold load_img. rewrite Hfile.
    simpl from_option_exn. rewrite bind_Ok. simpl fst. simpl snd.
    destruct planes as [|p planes]; [done|]. simpl.
    rewrite decide_True; [done|]. lia.
  - right. eexists. apply load_img_planes; [lia|lia|done|done].
Qed.

(** What [load_data] gets from [load_imgs], and the masks of the selected
    images. *)
Lemma load_imgs_selection coco (class_names : list string) :
  NoDup (ann_id <$> annotations coco) →
  NoDup (cat_id <$> categories coco) →
  0 ∉ cat_id <$> categories coco →
  Forall (λ a, image_id a ∈ img_id <$> images coco) (annotations coco) →
  ∃ img_ids img_names names (m : gmap Z Z),
    load_imgs coco (Some class_names) = Ok (img_ids, img_names, names, m)
    ∧ (∀ i, i ∈ img_ids ↔
         ∃ a, a ∈ annotations coco ∧ image_id a = i
              ∧ category_id a ∈ getCatIds coco (Some class_names))
    ∧ Forall2 (λ i name, ∃ img, imgs coco i = Ok img ∧ name = file_name img)
        img_ids img_names
    ∧ (0 < length names)%nat
    ∧ Forall (λ i, ∃ mask, load_mask coco i m = Ok mask
                           ∧ length mask = length names) img_ids.
Proof.
  intros Hanns Hcats H0 Hrefs.
  destruct (load_imgs_detail coco class_names Hrefs)
    as (img_names & cs & Hcs & Hnames & Hload).
  pose proof (load_imgs_builds_channel_index_map coco class_names _ _ _ _
                Hcats H0 Hrefs Hload) as Hm.
  set (cat_ids := getCatIds coco (Some class_names)) in *.
  set (m := dict_of_pairs (zip (0 :: cat_ids) (range (length (0 :: cat_ids))))) in *.
  assert (size m = length ("background"%string :: (cat_name <$> cs))) as Hsize.
  { pose proof (getCatIds_sublist coco (Some class_names)) as Hsub.
    fold cat_ids in Hsub.
    assert (NoDup (0 :: cat_ids)) as Hnd.
    { apply NoDup_cons. split.
      - intros Hin. apply H0. eapply elem_of_sublist; [exact Hin | exact Hsub].
      - eapply sublist_NoDup; [exact Hcats | exact Hsub]. }
    unfold m. rewrite (proj1 (dict_zip_range (0 :: cat_ids) Hnd)).
    cbn [length]. rewrite length_fmap. f_equal.
    eapply Forall2_length, Hcs. }
  eexists _, _, _, _. split; [exact Hload|].
  split; [intros i; apply elem_of_selected_images|].
  split; [exact Hnames|]. split; [simpl; lia|].
  apply Forall_forall. intros i Hi.
  apply list_elem_of_lookup in Hi as [k Hk].
  destruct (Forall2_lookup_l _ _ _ _ _ Hnames Hk) as (name & _ & img & Himg & _).
  destruct (load_mask_outcome coco i img m Hanns Himg) as [Hok _].
  destruct Hok as (mask & Hmask & Hlen & _).
  - rewrite Hsize. simpl. lia.
  - apply Forall_forall. intros a _. by apply channel_index_map_valid_channel.
  - exists mask. split; [done|]. by rewrite Hlen.
Qed.

(** The file of every selected image, when the files of the store's images
    are there. *)
Lemma selected_files coco fs img_dir (img_ids : list Z) (img_names : list string) :
  Forall (rgb_file fs img_dir) (images coco) →
  Forall2 (λ i name, ∃ img, imgs coco i = Ok img ∧ name = file_name img)
    img_ids img_names →
  ∀ name, name ∈ img_names →
    ∃ planes, fs (path_join img_dir name) = Some planes ∧ length planes = 3%nat.
Proof.
  intros Hfiles Hnames name Hname.
  apply list_elem_of_lookup in Hname as [k Hk].
  destruct (Forall2_lookup_r _ _ _ _ _ Hnames Hk) as (i & _ & img & Himg & ->).
  apply dict_lookup_Ok in Himg as [Himg _].
  rewrite Forall_forall in Hfiles. specialize (Hfiles img Himg).
  unfold rgb_file in Hfiles.
  destruct (fs (path_join img_dir (file_name img))) as [planes|]; [|done].
  injection Hfiles as Hlen. by exists planes.
Qed.

(** X19: for a square target size and a store whose image files are there,
    [load_data] returns X and Y with one entry per selected image, in the
    order of [load_imgs]: the entry of X is the three planes of the image
    file resized to the target size, the entry of Y the channels of the
    categorical mask of the image, each resized by nearest-neighbour
    sampling. *)
Theorem load_data_square_target coco fs img_dir t (class_names : list string) :
  (1 ≤ t)%nat →
  NoDup (ann_id <$> annotations coco) →
  NoDup (cat_id <$> categories coco) →
  0 ∉ cat_id <$> categories coco →
  Forall (λ a, image_id a ∈ img_id <$> images coco) (annotations coco) →
  Forall (rgb_file fs img_dir) (images coco) →
  ∃ img_ids img_names names (m : gmap Z Z) x y,
    load_imgs coco (Some class_names) = Ok (img_ids, img_names, names, m)
    ∧ load_data coco fs img_dir (t, t) (Some class_names) true = Ok (x, y)
    ∧ Forall2 (λ name xi,
                 ∃ planes, fs (path_join img_dir name) = Some planes
                           ∧ xi = nearest_sample t t <$> planes)
        img_names x
    ∧ Forall2 (λ i yi,
                 ∃ mask, load_mask coco i m = Ok mask
                         ∧ yi = nearest_resize t t <$> mask)
        img_ids y.
Proof.
  intros Ht Hanns Hcats H0 Hrefs Hfiles.
  destruct (load_imgs_selection coco class_names Hanns Hcats H0 Hrefs)
    as (img_ids & img_names & names & m & Hload & _ & Hnames & _ & Hmasks).
  exists img_ids, img_names, names, m.
  unfold load_data. rewrite Hload, bind_Ok. cbv beta match zeta.
  edestruct (comprehension_Forall2
               (λ filename,
                  img ← load_img fs (path_join img_dir filename) (t, t);
                  set_image (t, t) img)
               (λ name xi,
                  ∃ planes, fs (path_join img_dir name) = Some planes
                            ∧ xi = nearest_sample t t <$> planes)
               img_names) as (x & -> & Hx).
  { intros name Hname.
    destruct (selected_files coco fs img_dir _ _ Hfiles Hnames name Hname)
      as (planes & Hfile & Hlen).
    exists (nearest_sample t t <$> planes). split; [|by exists planes].
    by apply load_img_planes. }
  rewrite bind_Ok.
  edestruct (comprehension_Forall2
               (λ img_id,
                  mask ← load_mask coco img_id m;
                  mask_scaled ← scale_mask (t, t) (length names) mask;
                  Ok (fmap (M:=list) Np.as_float32 mask_scaled))
               (λ i yi,
                  ∃ mask, load_mask coco i m = Ok mask
                          ∧ yi = nearest_resize t t <$> mask)
               img_ids) as (y & -> & Hy).
  { intros i Hi. rewrite Forall_forall in Hmasks.
    destruct (Hmasks i Hi) as (mask & Hmask & Hlen).
    exists (nearest_resize t t <$> mask). split; [|by exists mask].
    rewrite Hmask, bind_Ok, <- Hlen, scale_mask_square, bind_Ok by done.
    f_equal. apply list_fmap_id. }
  rewrite bind_Ok. by exists x, y.
Qed.

Lemma load_data_square_target_witness :
  ∃ img_ids img_names names (m : gmap Z Z) x y,
    load_imgs demo_store (Some ["rice"; "egg"]%string)
    = Ok (img_ids, img_names, names, m)
    ∧ load_data demo_store demo_files "imgs" (2%nat, 2%nat)
        (Some ["rice"; "egg"]%string) true = Ok (x, y)
    ∧ Forall2 (λ name xi,
                 ∃ planes, demo_files (path_join "imgs" name) = Some planes
                           ∧ xi = nearest_sample 2 2 <$> planes)
        img_names x
    ∧ Forall2 (λ i yi,
                 ∃ mask, load_mask demo_store i m = Ok mask
                         ∧ yi = nearest_resize 2 2 <$> mask)
        img_ids y.
Proof.
  apply (load_data_square_target demo_store demo_files "imgs" 2
           ["rice"; "egg"]%string).
  - lia.
  - decide_by_evaluation.
  - decide_by_evaluation.
  - decide_by_evaluation.
  - decide_by_evaluation.
  - decide_by_evaluation.
Defined.

(** X20: for a target size that is not square, [load_data] raises
    ValueError whenever the selection holds an image and the image files of
    the store are there: the images are loaded, and the first mask does not
    fit its slot (a size with a side of zero is refused already when the
    images are resized). *)
Theorem load_data_non_square coco fs img_dir h w (class_names : list string) a :
  h ≠ w →
  NoDup (ann_id <$> annotations coco) →
  NoDup (cat_id <$> categories coco) →
  0 ∉ cat_id <$> categories coco →
  Forall (λ a, image_id a ∈ img_id <$> images coco) (annotations coco) →
  Forall (rgb_file fs img_dir) (images coco) →
  a ∈ annotations coco →
  category_id a ∈ getCatIds coco (Some class_names) →
  load_data coco fs img_dir (h, w) (Some class_names) true = Raise ValueError.
Proof.
  intros Hhw Hanns Hcats H0 Hrefs Hfiles Ha Hcat.
  destruct (load_imgs_selection coco class_names Hanns Hcats H0 Hrefs)
    as (img_ids & img_names & names & m & Hload & Hsel & Hnames & Hpos & Hmasks).
  unfold load_data. rewrite Hload, bind_Ok. cbv beta match zeta.
  destruct (comprehension_Raise_or_Ok
              (λ filename,
                 img ← load_img fs (path_join img_dir filename) (h, w);
                 set_image (h, w) img)
              ValueError img_names) as [->|[x ->]]; [|done|].
  { apply Forall_forall. intros name Hname.
    destruct (selected_files coco fs img_dir _ _ Hfiles Hnames name Hname)
      as (planes & Hfile & Hlen).
    by apply (load_img_outcome fs _ h w planes). }
  rewrite bind_Ok.
  rewrite (comprehension_Raise _ ValueError); [done| |].
  - apply Forall_forall. intros i Hi. left.
    rewrite Forall_forall in Hmasks.
    destruct (Hmasks i Hi) as (mask & Hmask & Hlen).
    rewrite Hmask, bind_Ok.
    destruct mask as [|ch mask]; [simpl in Hlen; lia|].
    by rewrite scale_mask_non_square.
  - apply Exists_exists. exists (image_id a).
    assert (image_id a ∈ img_ids) as Hi by (apply Hsel; by exists a).
    split; [done|].
    rewrite Forall_forall in Hmasks.
    destruct (Hmasks _ Hi) as (mask & Hmask & Hlen).
    rewrite Hmask, bind_Ok.
    destruct mask as [|ch mask]; [simpl in Hlen; lia|].
    by rewrite scale_mask_non_square.
Qed.

Lemma load_data_non_square_witness :
  load_data demo_store demo_files "imgs" (2%nat, 3%nat)
    (Some ["egg"]%string) true = Raise ValueError.
Proof.
  apply (load_data_non_square demo_store demo_files "imgs" 2 3 ["egg"]%string
           (mk_annotation 13 2 7 (pixel 0 0))).
  - lia.
  - decide_by_evaluation.
  - decide_by_evaluation.
  - decide_by_evaluation.
  - decide_by_evaluation.
  - decide_by_evaluation.
  - simpl. set_solver.
  - simpl. set_solver.
Defined.

(** X21: when the file of a selected image is missing, [load_data] raises
    OSError, whatever the target size of at least one pixel: every image is
    read before the first mask is built. *)
Theorem load_data_missing_file coco fs img_dir h w (class_names : list string)
    a img :
  (1 ≤ h)%nat → (1 ≤ w)%nat →
  Forall (λ a, image_id a ∈ img_id <$> images coco) (annotations coco) →
  Forall (λ img, fs (path_join img_dir (file_name img)) = None
                 ∨ rgb_file fs img_dir img) (images coco) →
  a ∈ annotations coco →
  category_id a ∈ getCatIds coco (Some class_names) →
  imgs coco (image_id a) = Ok img →
  fs (path_join img_dir (file_name img)) = None →
  load_data coco fs img_dir (h, w) (Some class_names) true = Raise OSError.
Proof.
  intros Hh Hw Hrefs Hfiles Ha Hcat Himg Hmissing.
  destruct (load_imgs_detail coco class_names Hrefs)
    as (img_names & cs & _ & Hnames & Hload).
  unfold load_data. rewrite Hload, bind_Ok. cbv beta match zeta.
  rewrite (comprehension_Raise
             (λ filename,
                img ← load_img fs (path_join img_dir filename) (h, w);
                set_image (h, w) img)
             OSError); [done| |].
  - apply Forall_forall. intros name Hname.
    apply list_elem_of_lookup in Hname as [k Hk].
    destruct (Forall2_lookup_r _ _ _ _ _ Hnames Hk) as (i & _ & img' & Himg' & ->).
    apply dict_lookup_Ok in Himg' as [Himg' _].
    rewrite Forall_forall in Hfiles.
    destruct (Hfiles img' Himg') as [Hnone|Hrgb].
    + left. unfold load_img. by rewrite Hnone.
    + right. unfold rgb_file in Hrgb.
      destruct (fs (path_join img_dir (file_name img'))) as [planes|] eqn:Hfile;
        [|done].
      injection Hrgb as Hlen. eexists. by apply load_img_planes.
  - assert (image_id a ∈ elements
              (list_to_set (mjoin ((λ id, getImgIds coco [] [id])
                                     <$> getCatIds coco (Some class_names)))
               : gset Z)) as Hi.
    { apply elem_of_selected_images. by exists a. }
    apply list_elem_of_lookup in Hi as [k Hk].
    destruct (Forall2_lookup_l _ _ _ _ _ Hnames Hk) as (name & Hname & img' & Himg' & ->).
    rewrite Himg in Himg'. injection Himg' as <-.
    apply Exists_exists. exists (file_name img). split.
    + apply list_elem_of_lookup. by exists k.
    + unfold load_img. by rewrite Hmissing.
Qed.

Lemma load_data_missing_file_witness :
  load_data demo_store demo_files_partial "imgs" (2%nat, 3%nat)
    (Some ["rice"; "egg"]%string) true = Raise OSError.
Proof.
  apply (load_data_missing_file demo_store demo_files_partial "imgs" 2 3
           ["rice"; "egg"]%string
           (mk_annotation 13 2 7 (pixel 0 0)) (mk_image 2 "b.png" 2 2)).
  - lia.
  - lia.
  - decide_by_evaluation.
  - decide_by_evaluation.
  - simpl. set_solver.
  - simpl. set_solver.
  - by vm_compute.
  - by vm_compute.
Defined.

End dataset_loader_outcome.
